(** * Notes client (frontend/src/App.tsx): request adapter and sync controller

    A shallow embedding of the React component [App] and of the [api] helper
    it calls.  JavaScript strings are sequences of UTF-16 code units
    ([list N]); numbers that hold ids and HTTP status codes are integers
    ([Z]).  React state is a record, every [setX] is a setter on that record,
    and an [await] splits an async function into the part that runs when the
    handler is invoked and the continuation that runs when the promise
    settles. *)

From Stdlib Require Import ZArith NArith String Ascii DecimalString DecimalZ.
From stdpp Require Import base decidable option list numbers.

Open Scope Z_scope.

(** ** JavaScript strings *)

Abbreviation jsstring := (list N).

(** An ASCII literal of the source as code units. *)
Definition lit (s : string) : jsstring :=
  N_of_ascii <$> list_ascii_of_string s.

(** The integers a JavaScript number holds exactly, up to 2^53 in absolute
    value; ids and status codes are among them. *)
Definition safe_integer (n : Z) : Prop := Z.abs n <= 2 ^ 53.

(** Template-literal rendering [`${n}`] of a safe integer: its decimal
    numeral.  Beyond the safe integers JavaScript prints the shortest digits
    that read back as the same number, padded with zeros, and exponent
    notation from 10^21 on; that part is not modelled, and statements about
    the text of a number carry [safe_integer] where the number is not a
    status code. *)
Definition number_to_string (n : Z) : jsstring :=
  lit (NilZero.string_of_int (Z.to_int n)).

(** A string is truthy iff it is not empty. *)
Definition truthy (s : jsstring) : bool :=
  match s with [] => false | _ :: _ => true end.

(** [a || b] on strings. *)
Definition or_else (a b : jsstring) : jsstring :=
  if truthy a then a else b.

(** ECMAScript WhiteSpace and LineTerminator code units, the ones
    [String.prototype.trim] removes. *)
Definition is_space (c : N) : bool :=
  (bool_decide (c ∈ [0x09; 0x0A; 0x0B; 0x0C; 0x0D; 0x20; 0xA0; 0x1680;
                     0x2028; 0x2029; 0x202F; 0x205F; 0x3000; 0xFEFF]%N)
   || ((0x2000 <=? c) && (c <=? 0x200A))%N)%bool.

Fixpoint drop_while {A} (p : A → bool) (s : list A) : list A :=
  match s with
  | [] => []
  | c :: s' => if p c then drop_while p s' else s
  end.

Definition trimStart (s : jsstring) : jsstring := drop_while is_space s.
Definition trimEnd (s : jsstring) : jsstring :=
  reverse (drop_while is_space (reverse s)).
Definition trim (s : jsstring) : jsstring := trimEnd (trimStart s).

(** [s.includes(sub)] *)
Fixpoint starts_with (sub s : jsstring) : bool :=
  match sub, s with
  | [], _ => true
  | _ :: _, [] => false
  | a :: sub', b :: s' => bool_decide (a = b) && starts_with sub' s'
  end.

Fixpoint includes (s sub : jsstring) : bool :=
  starts_with sub s
  || match s with [] => false | _ :: s' => includes s' sub end.

(** ** [API_BASE] *)

Definition slash : N := 0x2F%N.
Definition is_slash (c : N) : bool := bool_decide (c = slash).

(** The pattern [/\/+$/] tried at the start of [s]: one or more slashes and
    then the end of the input (no [m] flag, so [$] is the end of the string). *)
Definition slashes_to_end (s : jsstring) : bool :=
  truthy s && forallb is_slash s.

(** [s.replace(/\/+$/, "")]: the pattern has no [g] flag, so the leftmost
    position at which it matches is replaced; the match runs to the end of
    the string, so what is left is the text before that position. *)
Fixpoint replace_trailing_slashes (s : jsstring) : jsstring :=
  match s with
  | [] => []
  | c :: s' =>
      if slashes_to_end s then [] else c :: replace_trailing_slashes s'
  end.

(** [import.meta.env.VITE_API_URL] is a string or [undefined]. *)
Definition API_BASE (VITE_API_URL : option jsstring) : jsstring :=
  match VITE_API_URL with
  | Some url =>
      if truthy url then replace_trailing_slashes url ++ lit "/api"
      else lit "/api"
  | None => lit "/api"
  end.

(** The same constant in the second copy of the component (the one styled
    inline): the override is used as it is. *)
Definition API_BASE_inline (VITE_API_URL : option jsstring) : jsstring :=
  match VITE_API_URL with
  | Some url => if truthy url then url ++ lit "/api" else lit "/api"
  | None => lit "/api"
  end.

(** The spec's wording: the override with all trailing slashes removed. *)
Definition without_trailing_slashes (s : jsstring) : jsstring :=
  reverse (drop_while is_slash (reverse s)).

(** ** [api] *)

(** What a [catch (e)] clause can receive. *)
Inductive Thrown :=
| ErrorObj (message : jsstring)   (* e instanceof Error *)
| NonError.

(** A settled promise. *)
Inductive Settled (T : Type) :=
| Fulfilled (v : T)
| Rejected (e : Thrown).
Arguments Fulfilled {T} v.
Arguments Rejected {T} e.

(** The parts of a fetch [Response] that [api] reads.  [res_text] is the
    outcome of [res.text()]: the body as text ([inr]), or the message of the
    error it rejects with when the body cannot be read ([inl]).  [res_json]
    is the outcome of [res.json()]: the parsed value, or the message of the
    [SyntaxError] it rejects with. *)
Record Response (T : Type) := {
  res_status : Z;
  res_text : jsstring + jsstring;
  res_content_type : option jsstring;
  res_json : jsstring + T;
}.
Arguments res_status {T} _.
Arguments res_text {T} _.
Arguments res_content_type {T} _.
Arguments res_json {T} _.

(** [res.ok]: the status is in the range 200-299. *)
Definition res_ok {T} (res : Response T) : bool :=
  (200 <=? res_status res) && (res_status res <=? 299).

(** [await fetch(...)]: a response, or a rejection with a [TypeError]. *)
Inductive Fetched (T : Type) :=
| NetworkError (message : jsstring)
| Responded (res : Response T).
Arguments NetworkError {T} message.
Arguments Responded {T} res.

Definition request_failed (status : Z) : jsstring :=
  lit "Request failed (" ++ number_to_string status ++ lit ")".

(** [api<T>(path, options)] after the [fetch]; [None] is [undefined as T]. *)
Definition api {T} (fetched : Fetched T) : Settled (option T) :=
  match fetched with
  | NetworkError m => Rejected (ErrorObj m)
  | Responded res =>
      if negb (res_ok res) then
        match res_text res with
        | inl m => Rejected (ErrorObj m)
        | inr text =>
            Rejected (ErrorObj (or_else text (request_failed (res_status res))))
        end
      else
        let contentType := or_else (default [] (res_content_type res)) [] in
        if includes contentType (lit "application/json") then
          match res_json res with
          | inr v => Fulfilled (Some v)
          | inl m => Rejected (ErrorObj m)
          end
        else Fulfilled None
  end.

(** ** The component state *)

Module Note.
Record t := {
  id : Z;
  text : jsstring;
  created_at : jsstring;
  updated_at : jsstring;
}.
End Note.

Global Instance Note_eq_dec : EqDecision Note.t.
Proof. solve_decision. Defined.

(** The [useState] cells of [App]. *)
Record State := {
  notes : list Note.t;
  newText : jsstring;
  err : jsstring;
  isLoading : bool;
  isAdding : bool;
  deletingId : option Z;
  editingId : option Z;
  editingText : jsstring;
  savingEdit : bool;
}.

Definition setNotes (v : list Note.t) (s : State) : State :=
  {| notes := v; newText := newText s; err := err s;
     isLoading := isLoading s; isAdding := isAdding s;
     deletingId := deletingId s; editingId := editingId s;
     editingText := editingText s; savingEdit := savingEdit s |}.
Definition setNewText (v : jsstring) (s : State) : State :=
  {| notes := notes s; newText := v; err := err s;
     isLoading := isLoading s; isAdding := isAdding s;
     deletingId := deletingId s; editingId := editingId s;
     editingText := editingText s; savingEdit := savingEdit s |}.
Definition setErr (v : jsstring) (s : State) : State :=
  {| notes := notes s; newText := newText s; err := v;
     isLoading := isLoading s; isAdding := isAdding s;
     deletingId := deletingId s; editingId := editingId s;
     editingText := editingText s; savingEdit := savingEdit s |}.
Definition setIsLoading (v : bool) (s : State) : State :=
  {| notes := notes s; newText := newText s; err := err s;
     isLoading := v; isAdding := isAdding s;
     deletingId := deletingId s; editingId := editingId s;
     editingText := editingText s; savingEdit := savingEdit s |}.
Definition setIsAdding (v : bool) (s : State) : State :=
  {| notes := notes s; newText := newText s; err := err s;
     isLoading := isLoading s; isAdding := v;
     deletingId := deletingId s; editingId := editingId s;
     editingText := editingText s; savingEdit := savingEdit s |}.
Definition setDeletingId (v : option Z) (s : State) : State :=
  {| notes := notes s; newText := newText s; err := err s;
     isLoading := isLoading s; isAdding := isAdding s;
     deletingId := v; editingId := editingId s;
     editingText := editingText s; savingEdit := savingEdit s |}.
Definition setEditingId (v : option Z) (s : State) : State :=
  {| notes := notes s; newText := newText s; err := err s;
     isLoading := isLoading s; isAdding := isAdding s;
     deletingId := deletingId s; editingId := v;
     editingText := editingText s; savingEdit := savingEdit s |}.
Definition setEditingText (v : jsstring) (s : State) : State :=
  {| notes := notes s; newText := newText s; err := err s;
     isLoading := isLoading s; isAdding := isAdding s;
     deletingId := deletingId s; editingId := editingId s;
     editingText := v; savingEdit := savingEdit s |}.
Definition setSavingEdit (v : bool) (s : State) : State :=
  {| notes := notes s; newText := newText s; err := err s;
     isLoading := isLoading s; isAdding := isAdding s;
     deletingId := deletingId s; editingId := editingId s;
     editingText := editingText s; savingEdit := v |}.

(** The initial values given to [useState]. *)
Definition initial_state : State :=
  {| notes := []; newText := []; err := [];
     isLoading := true; isAdding := false; deletingId := None;
     editingId := None; editingText := []; savingEdit := false |}.

(** ** Requests in flight *)

Inductive Method := GET | POST | PUT | DELETE.

(** What a call of [api] sends: the method, the [path] argument and, for a
    body [JSON.stringify({ text: t })], the string [t]. *)
Record Request := {
  req_method : Method;
  req_path : jsstring;
  req_text : option jsstring;
}.

(** The rest of an async function after its [await], with the variables of
    the call that it still reads.  [deleteNote] reads its argument [id] and
    the [editingId] of the render whose handler was invoked. *)
Inductive Continuation :=
| AwaitLoad
| AwaitAdd
| AwaitSave
| AwaitDelete (id : Z) (editingId : option Z).

Record Pending := {
  request : Request;
  awaiting : Continuation;
}.

(** The component between two events: its state and the promises that have
    not settled yet, oldest first. *)
Record App := {
  st : State;
  inflight : list Pending;
}.

Definition issue (r : Request) (k : Continuation) (s : State) (a : App) : App :=
  {| st := s; inflight := inflight a ++ [{| request := r; awaiting := k |}] |}.

Definition with_state (s : State) (a : App) : App :=
  {| st := s; inflight := inflight a |}.

(** [e instanceof Error ? e.message : fallback] *)
Definition catch_message (e : Thrown) (fallback : jsstring) : jsstring :=
  match e with
  | ErrorObj m => m
  | NonError => fallback
  end.

(** ** The operations *)

(** [loadNotes], up to the [await]. *)
Definition loadNotes (a : App) : App :=
  let s := setErr [] (st a) in
  let s := setIsLoading true s in
  issue {| req_method := GET; req_path := lit "/notes"; req_text := None |}
        AwaitLoad s a.

(** [loadNotes], from the [await] on. *)
Definition loadNotes_settled (o : Settled (list Note.t)) (s : State) : State :=
  let s :=
    match o with
    | Fulfilled data => setNotes data s
    | Rejected e => setErr (catch_message e (lit "Failed to load notes.")) s
    end in
  setIsLoading false s.

Definition addNote (a : App) : App :=
  let s := st a in
  let t := trim (newText s) in
  if negb (truthy t) || isAdding s then a
  else
    let s := setErr [] s in
    let s := setIsAdding true s in
    issue {| req_method := POST; req_path := lit "/notes"; req_text := Some t |}
          AwaitAdd s a.

Definition addNote_settled (o : Settled Note.t) (s : State) : State :=
  let s :=
    match o with
    | Fulfilled created =>
        let s := setNotes (created :: notes s) s in
        setNewText [] s
    | Rejected e => setErr (catch_message e (lit "Failed to add note.")) s
    end in
  setIsAdding false s.

Definition startEdit (note : Note.t) (s : State) : State :=
  let s := setErr [] s in
  let s := setEditingId (Some (Note.id note)) s in
  setEditingText (Note.text note) s.

Definition cancelEdit (s : State) : State :=
  let s := setEditingId None s in
  let s := setEditingText [] s in
  setSavingEdit false s.

Definition saveEdit (a : App) : App :=
  let s := st a in
  match editingId s with
  | None => a
  | Some editingId =>
      let t := trim (editingText s) in
      if negb (truthy t) || savingEdit s then a
      else
        let s := setErr [] s in
        let s := setSavingEdit true s in
        issue {| req_method := PUT;
                 req_path := lit "/notes/" ++ number_to_string editingId;
                 req_text := Some t |}
              AwaitSave s a
  end.

Definition saveEdit_settled (o : Settled Note.t) (s : State) : State :=
  match o with
  | Fulfilled updated =>
      let s :=
        setNotes
          ((λ n, if decide (Note.id n = Note.id updated) then updated else n)
             <$> notes s) s in
      cancelEdit s
  | Rejected e =>
      let s := setErr (catch_message e (lit "Failed to update note.")) s in
      setSavingEdit false s
  end.

Definition deleteNote (id : Z) (a : App) : App :=
  let s := st a in
  match deletingId s with
  | Some _ => a
  | None =>
      let editingId := editingId s in
      let s := setErr [] s in
      let s := setDeletingId (Some id) s in
      issue {| req_method := DELETE;
               req_path := lit "/notes/" ++ number_to_string id;
               req_text := None |}
            (AwaitDelete id editingId) s a
  end.

Definition deleteNote_settled (id : Z) (editingId : option Z)
    (o : Settled unit) (s : State) : State :=
  let s :=
    match o with
    | Fulfilled _ =>
        let s := setNotes (filter (λ n, Note.id n ≠ id) (notes s)) s in
        if decide (editingId = Some id) then cancelEdit s else s
    | Rejected e => setErr (catch_message e (lit "Failed to delete note.")) s
    end in
  setDeletingId None s.

(** ** Events *)

(** What the user (or the mount effect) can make the component do. *)
Inductive Call :=
| LoadNotes
| SetNewText (v : jsstring)
| AddNote
| StartEdit (note : Note.t)
| SetEditingText (v : jsstring)
| CancelEdit
| SaveEdit
| DeleteNote (id : Z).

Definition invoke (c : Call) (a : App) : App :=
  match c with
  | LoadNotes => loadNotes a
  | SetNewText v => with_state (setNewText v (st a)) a
  | AddNote => addNote a
  | StartEdit note => with_state (startEdit note (st a)) a
  | SetEditingText v => with_state (setEditingText v (st a)) a
  | CancelEdit => with_state (cancelEdit (st a)) a
  | SaveEdit => saveEdit a
  | DeleteNote id => deleteNote id a
  end.

(** The value a call of [api] resolves to, by the type the caller gives it:
    [Note[]], [Note], or the acknowledgement of a delete (never read). *)
Inductive Reply :=
| Notes (data : list Note.t)
| OneNote (n : Note.t)
| Deleted.

(** Runs a continuation on the outcome of its request.  An outcome of another
    type than the one the caller declared is not a step of the model. *)
Definition resume (k : Continuation) (o : Settled Reply) (s : State)
    : option State :=
  match k, o with
  | AwaitLoad, Fulfilled (Notes data) =>
      Some (loadNotes_settled (Fulfilled data) s)
  | AwaitLoad, Rejected e => Some (loadNotes_settled (Rejected e) s)
  | AwaitAdd, Fulfilled (OneNote created) =>
      Some (addNote_settled (Fulfilled created) s)
  | AwaitAdd, Rejected e => Some (addNote_settled (Rejected e) s)
  | AwaitSave, Fulfilled (OneNote updated) =>
      Some (saveEdit_settled (Fulfilled updated) s)
  | AwaitSave, Rejected e => Some (saveEdit_settled (Rejected e) s)
  | AwaitDelete id editingId, Fulfilled Deleted =>
      Some (deleteNote_settled id editingId (Fulfilled ()) s)
  | AwaitDelete id editingId, Rejected e =>
      Some (deleteNote_settled id editingId (Rejected e) s)
  | _, _ => None
  end.

(** The [k]-th request in flight settles with outcome [o]. *)
Definition settle (k : nat) (o : Settled Reply) (a : App) : option App :=
  match inflight a !! k with
  | None => None
  | Some p =>
      match resume (awaiting p) o (st a) with
      | None => None
      | Some s => Some {| st := s; inflight := delete k (inflight a) |}
      end
  end.

Inductive Event :=
| Invoke (c : Call)
| Settle (k : nat) (o : Settled Reply).

Definition step (ev : Event) (a : App) : option App :=
  match ev with
  | Invoke c => Some (invoke c a)
  | Settle k o => settle k o a
  end.

Fixpoint run (evs : list Event) (a : App) : option App :=
  match evs with
  | [] => Some a
  | ev :: evs' =>
      match step ev a with
      | None => None
      | Some a' => run evs' a'
      end
  end.

(** The component before its mount effect has run. *)
Definition initial : App := {| st := initial_state; inflight := [] |}.

(** States the operations can produce, invoked in any order and at any time,
    with the requests settling in any order. *)
Definition reachable (a : App) : Prop := ∃ evs, run evs initial = Some a.

(** ** What the rendered view lets through *)

(** [canAdd] *)
Definition canAdd (s : State) : bool :=
  (0 <? length (trim (newText s)))%nat && negb (isAdding s).

(** The list is rendered only when [isLoading] is false. *)
Definition row_shown (s : State) (n : Note.t) : bool :=
  negb (isLoading s) && bool_decide (n ∈ notes s).

Definition isEditing (s : State) (n : Note.t) : bool :=
  bool_decide (editingId s = Some (Note.id n)).
Definition isDeleting (s : State) (n : Note.t) : bool :=
  bool_decide (deletingId s = Some (Note.id n)).

(** The [disabled] attributes of the Edit, Delete and Save buttons. *)
Definition edit_disabled (s : State) (n : Note.t) : bool :=
  bool_decide (editingId s ≠ None) || isDeleting s n.
Definition delete_disabled (s : State) (n : Note.t) : bool :=
  isDeleting s n || bool_decide (editingId s = Some (Note.id n)).
Definition save_disabled (s : State) : bool :=
  savingEdit s || (length (trim (editingText s)) =? 0)%nat.

(** Some row shows the textarea with its Save and Cancel buttons. *)
Definition editor_shown (s : State) : bool :=
  negb (isLoading s) && existsb (isEditing s) (notes s).

(** Whether the view, rendered from [s], passes the call on: the control is
    rendered and not disabled. *)
Definition enabled (s : State) (c : Call) : bool :=
  match c with
  | LoadNotes => negb (isLoading s)
  | SetNewText _ => true
  | AddNote => canAdd s
  | StartEdit n => row_shown s n && negb (edit_disabled s n)
  | SetEditingText _ => editor_shown s
  | CancelEdit => editor_shown s
  | SaveEdit => editor_shown s && negb (save_disabled s)
  | DeleteNote id =>
      negb (isLoading s)
      && existsb (λ n, bool_decide (Note.id n = id) && negb (delete_disabled s n))
                 (notes s)
  end.

(** A user action on the view: ignored when its control is disabled. *)
Definition click (c : Call) (a : App) : App :=
  if enabled (st a) c then invoke c a else a.

(** The component once mounted: the effect has called [loadNotes]. *)
Definition mounted : App := loadNotes initial.

Definition ui_step (ev : Event) (a : App) : option App :=
  match ev with
  | Invoke c => if enabled (st a) c then Some (invoke c a) else None
  | Settle k o => settle k o a
  end.

Fixpoint ui_run (evs : list Event) (a : App) : option App :=
  match evs with
  | [] => Some a
  | ev :: evs' =>
      match ui_step ev a with
      | None => None
      | Some a' => ui_run evs' a'
      end
  end.

(** States a user can bring the mounted component to. *)
Definition ui_reachable (a : App) : Prop := ∃ evs, ui_run evs mounted = Some a.

(** ** Notions used in the statements *)

(** Reads a decimal numeral back. *)
Definition parse_number (s : jsstring) : option Z :=
  Z.of_int <$> NilZero.int_of_string (string_of_list_ascii (ascii_of_N <$> s)).

(** The ids of the local notes, in order. *)
Definition ids (l : list Note.t) : list Z := Note.id <$> l.

Definition unique_ids (a : App) : Prop := NoDup (ids (notes (st a))).

(** A reply that brings no second note for an id: a list without repeated
    ids for Load, a note whose id is not in the local collection for
    Create.  Every other event qualifies. *)
Definition brings_no_duplicate (a : App) (ev : Event) : Prop :=
  match ev with
  | Settle k (Fulfilled (Notes data)) => NoDup (ids data)
  | Settle k (Fulfilled (OneNote n)) =>
      match awaiting <$> inflight a !! k with
      | Some AwaitAdd => Note.id n ∉ ids (notes (st a))
      | _ => True
      end
  | _ => True
  end.

(** Runs in which no reply brings a duplicate. *)
Inductive duplicate_free_run : App → Prop :=
| dfr_initial : duplicate_free_run initial
| dfr_step (a a' : App) (ev : Event) :
    duplicate_free_run a →
    brings_no_duplicate a ev →
    step ev a = Some a' →
    duplicate_free_run a'.

(** The fallback text of each operation's [catch] clause. *)
Definition fallback (c : Call) : jsstring :=
  match c with
  | LoadNotes => lit "Failed to load notes."
  | AddNote => lit "Failed to add note."
  | SaveEdit => lit "Failed to update note."
  | DeleteNote _ => lit "Failed to delete note."
  | _ => []
  end.

(** The delete a pending request stands for: its id and the [editingId] its
    continuation closed over. *)
Definition pending_delete (p : Pending) : option (Z * option Z) :=
  match awaiting p with
  | AwaitDelete id editingId => Some (id, editingId)
  | _ => None
  end.

(** [deletingId] names the one delete in flight, and neither the session
    open now nor the one the continuation remembers is on that note. *)
Definition delete_slot (a : App) : Prop :=
  match omap pending_delete (inflight a) with
  | [] => deletingId (st a) = None
  | [(id, remembered)] =>
      deletingId (st a) = Some id
      ∧ editingId (st a) ≠ Some id
      ∧ remembered ≠ Some id
  | _ => False
  end.

(** ** The Notes Store *)

(** Modelled from the spec: the Notes Store, whose code is not among the
    sources of the client.  Section 6 of the spec: List answers with the
    array of notes and Create with the single new note; section 3: the id is
    assigned by the store and unique, and [created_at] and [updated_at] are
    equal until the first edit.  Only these two operations are modelled; the
    time stamp is supplied from outside. *)
Record Store := {
  rows : list Note.t;
  next_id : Z;
}.

Definition store_list (db : Store) : list Note.t := rows db.

Definition store_create (text now : jsstring) (db : Store) : Store * Note.t :=
  let created :=
    {| Note.id := next_id db; Note.text := text;
       Note.created_at := now; Note.updated_at := now |} in
  ({| rows := created :: rows db; next_id := next_id db + 1 |}, created).

Definition store_ok (db : Store) : Prop :=
  NoDup (ids (rows db)) ∧ Forall (λ n, Note.id n < next_id db) (rows db).

(** ** Concrete data *)

Definition not_found : Response (list Note.t) :=
  {| res_status := 404; res_text := inr (lit "Not Found");
     res_content_type := Some (lit "application/json");
     res_json := inl (lit "unused") |}.

Definition bad_gateway : Response (list Note.t) :=
  {| res_status := 502; res_text := inr [];
     res_content_type := None; res_json := inl (lit "unused") |}.

(** A 500 whose body stream breaks off while it is read. *)
Definition broken_body : Response (list Note.t) :=
  {| res_status := 500; res_text := inl (lit "terminated");
     res_content_type := Some (lit "text/plain");
     res_json := inl (lit "unused") |}.

Definition note1 : Note.t :=
  {| Note.id := 1; Note.text := lit "one";
     Note.created_at := lit "2024-01-01T10:00:00";
     Note.updated_at := lit "2024-01-01T10:00:00" |}.
Definition note2 : Note.t :=
  {| Note.id := 2; Note.text := lit "two";
     Note.created_at := lit "2024-01-02T10:00:00";
     Note.updated_at := lit "2024-01-02T10:00:00" |}.
Definition note1_saved : Note.t :=
  {| Note.id := 1; Note.text := lit "one";
     Note.created_at := lit "2024-01-01T10:00:00";
     Note.updated_at := lit "2024-01-03T09:30:00" |}.
Definition note5 : Note.t :=
  {| Note.id := 5; Note.text := lit "new";
     Note.created_at := lit "2024-01-05T10:00:00";
     Note.updated_at := lit "2024-01-05T10:00:00" |}.

Definition boom : Thrown := ErrorObj (lit "Request failed (500)").

Definition loaded : App :=
  {| st := {| notes := [note1; note2]; newText := []; err := [];
              isLoading := false; isAdding := false; deletingId := None;
              editingId := None; editingText := []; savingEdit := false |};
     inflight := [] |}.

(** Two notes loaded, then the first one opened for editing. *)
Definition open_session : list Event :=
  [ Settle 0 (Fulfilled (Notes [note1; note2]));
    Invoke (StartEdit note1) ].

Definition editing_note1 : App :=
  {| st := {| notes := [note1; note2]; newText := []; err := [];
              isLoading := false; isAdding := false; deletingId := None;
              editingId := Some 1; editingText := lit "one";
              savingEdit := false |};
     inflight := [] |}.

(** The same session with its save in flight. *)
Definition saving_note1 : App := invoke SaveEdit editing_note1.

Definition put_note1 : Pending :=
  {| request := {| req_method := PUT; req_path := lit "/notes/1";
                   req_text := Some (lit "one") |};
     awaiting := AwaitSave |}.

(** The save failed: the session is still open and the banner shows. *)
Definition failed_save : App :=
  {| st := {| notes := [note1; note2]; newText := []; err := lit "Request failed (500)";
              isLoading := false; isAdding := false; deletingId := None;
              editingId := Some 1; editingText := lit "one";
              savingEdit := false |};
     inflight := [] |}.

(** A blank input: only spaces and a tab. *)
Definition blank_input : App :=
  with_state (setNewText (lit "   " ++ [0x09%N]) (st editing_note1))
             editing_note1.

(** A refresh requested while a create is in flight, answered first. *)
Definition create_during_refresh : list Event :=
  [ Invoke LoadNotes;                          (* the mount effect *)
    Settle 0 (Fulfilled (Notes []));
    Invoke (SetNewText (lit "new"));
    Invoke AddNote;                            (* POST /notes in flight *)
    Invoke LoadNotes;                          (* Refresh: GET /notes in flight *)
    Settle 1 (Fulfilled (Notes [note5]));      (* the refresh is answered *)
    Settle 0 (Fulfilled (OneNote note5)) ].    (* then the create *)

Definition empty_store : Store := {| rows := []; next_id := 5 |}.

(** ** Requests in flight, by kind *)

Global Instance Continuation_eq_dec : EqDecision Continuation.
Proof. solve_decision. Defined.

(** How many requests whose continuation is [k] have not settled. *)
Definition in_flight (k : Continuation) (a : App) : nat :=
  length (filter (λ p, awaiting p = k) (inflight a)).

(** A busy flag read as a number of requests. *)
Definition flag (b : bool) : nat := if b then 1%nat else 0%nat.

(** The deletes in flight: none with [deletingId] clear, or the one that
    [deletingId] names. *)
Definition delete_single_flight (a : App) : Prop :=
  match omap pending_delete (inflight a) with
  | [] => deletingId (st a) = None
  | [(id, _)] => deletingId (st a) = Some id
  | _ => False
  end.

(** No session open means no draft and no save marked as running. *)
Definition idle_session_clean (s : State) : Prop :=
  editingId s = None → editingText s = [] ∧ savingEdit s = false.

(** The request [addNote] sends for the input of [s]. *)
Definition post_note (s : State) : Pending :=
  {| request := {| req_method := POST; req_path := lit "/notes";
                   req_text := Some (trim (newText s)) |};
     awaiting := AwaitAdd |}.

(** The request [saveEdit] sends for a session on [id] with draft [draft]. *)
Definition put_note (id : Z) (draft : jsstring) : Pending :=
  {| request := {| req_method := PUT;
                   req_path := lit "/notes/" ++ number_to_string id;
                   req_text := Some (trim draft) |};
     awaiting := AwaitSave |}.

(** A refresh while note 1 is being edited, answered without note 1. *)
Definition refresh_drops_note1 : list Event :=
  open_session
  ++ [ Invoke LoadNotes; Settle 0 (Fulfilled (Notes [note2])) ].

Definition session_without_row : App :=
  {| st := {| notes := [note2]; newText := []; err := [];
              isLoading := false; isAdding := false; deletingId := None;
              editingId := Some 1; editingText := lit "one";
              savingEdit := false |};
     inflight := [] |}.

(** Note 1 being deleted, its request in flight. *)
Definition deleting_note1 : App := invoke (DeleteNote 1) loaded.

Definition delete_note1 : Pending :=
  {| request := {| req_method := DELETE; req_path := lit "/notes/1";
                   req_text := None |};
     awaiting := AwaitDelete 1 None |}.

Definition note9 : Note.t :=
  {| Note.id := 9; Note.text := lit "nine";
     Note.created_at := lit "2024-01-09T10:00:00";
     Note.updated_at := lit "2024-01-09T11:00:00" |}.

(** * Properties *)

(** ** The request adapter *)

Section DropWhile.
Context {A : Type} (p : A → bool).

Lemma drop_while_all (l : list A) :
  forallb p l = true → drop_while p l = [].
Proof.
  induction l as [|x l IH]; simpl; [done|].
  destruct (p x); simpl; [exact IH | discriminate].
Qed.

Lemma drop_while_snoc (l : list A) (x : A) :
  drop_while p (l ++ [x]) =
    if forallb p l then (if p x then [] else [x])
    else drop_while p l ++ [x].
Proof.
  induction l as [|y l IH]; simpl; [done|].
  destruct (p y); simpl; [exact IH | done].
Qed.

Lemma forallb_reverse (l : list A) : forallb p (reverse l) = forallb p l.
Proof.
  induction l as [|y l IH]; simpl; [done|].
  rewrite reverse_cons, forallb_app, IH. simpl.
  destruct (p y), (forallb p l); reflexivity.
Qed.

(** Dropping a suffix: what remains ends with an element outside [p]. *)
Lemma drop_while_reverse_cons (x : A) (l : list A) :
  reverse (drop_while p (reverse (x :: l))) =
    if forallb p (x :: l) then []
    else x :: reverse (drop_while p (reverse l)).
Proof.
  rewrite reverse_cons, drop_while_snoc, forallb_reverse. simpl.
  destruct (forallb p l) eqn:Hl.
  - rewrite (drop_while_all (reverse l)) by (by rewrite forallb_reverse).
    destruct (p x); reflexivity.
  - rewrite reverse_app. simpl. by rewrite andb_false_r.
Qed.
End DropWhile.

Lemma replace_trailing_slashes_spec (s : jsstring) :
  replace_trailing_slashes s = without_trailing_slashes s.
Proof.
  unfold without_trailing_slashes.
  induction s as [|c s IH]; [done|].
  rewrite drop_while_reverse_cons.
  cbn [replace_trailing_slashes slashes_to_end truthy andb].
  destruct (forallb is_slash (c :: s)); [done|]. by rewrite IH.
Qed.

(** C4: with an override configured, the base path is the override without
    its trailing slashes followed by "/api"; with none configured it is
    "/api". *)
Theorem API_BASE_strips_trailing_slashes :
  (∀ url : jsstring,
      API_BASE (Some url) = without_trailing_slashes url ++ lit "/api")
  ∧ API_BASE None = lit "/api".
Proof.
  split; [|done].
  intros url. unfold API_BASE.
  destruct url as [|c url]; [done|].
  cbn [truthy]. by rewrite replace_trailing_slashes_spec.
Qed.

Lemma replace_trailing_slashes_nil (s : jsstring) :
  replace_trailing_slashes s = [] → forallb is_slash s = true.
Proof.
  destruct s as [|c s]; [done|].
  cbn [replace_trailing_slashes slashes_to_end truthy andb].
  by destruct (forallb is_slash (c :: s)).
Qed.

(** What is left never ends with a slash, and only slashes were taken off. *)
Lemma without_trailing_slashes_last (s : jsstring) :
  list.last (without_trailing_slashes s) ≠ Some slash.
Proof.
  rewrite <- replace_trailing_slashes_spec.
  induction s as [|c s IH]; [done|].
  cbn [replace_trailing_slashes slashes_to_end truthy andb].
  destruct (forallb is_slash (c :: s)) eqn:E; [done|].
  rewrite last_cons.
  destruct (replace_trailing_slashes s) as [|d r] eqn:Er.
  - apply replace_trailing_slashes_nil in Er.
    cbn [forallb] in E. rewrite Er, andb_true_r in E.
    simpl. intros [= ->]. unfold is_slash in E.
    by rewrite bool_decide_eq_true_2 in E.
  - destruct (list.last (d :: r)) as [y|] eqn:El; [exact IH|].
    by rewrite last_cons in El; destruct (list.last r).
Qed.

Lemma without_trailing_slashes_split (s : jsstring) :
  ∃ k, s = without_trailing_slashes s ++ replicate k slash.
Proof.
  rewrite <- replace_trailing_slashes_spec.
  induction s as [|c s [k IH]]; [by exists 0%nat|].
  cbn [replace_trailing_slashes].
  destruct (slashes_to_end (c :: s)) eqn:E.
  - exists (length (c :: s)). rewrite app_nil_l.
    cbn [slashes_to_end truthy andb] in E.
    rewrite forallb_forall in E.
    symmetry. apply replicate_as_Forall. split; [done|].
    apply Forall_forall. intros x Hx.
    specialize (E x Hx). unfold is_slash in E.
    symmetry. by apply bool_decide_eq_true_1 in E.
  - exists k. simpl. by rewrite <- IH.
Qed.

(** The inline-styled copy keeps the override's trailing slashes: it gives
    the same base path exactly for overrides that end in none. *)
Lemma API_BASE_inline_keeps_slashes :
  API_BASE_inline (Some (lit "http://h/")) = lit "http://h//api"
  ∧ API_BASE (Some (lit "http://h/")) = lit "http://h/api".
Proof. split; reflexivity. Qed.

Lemma lit_ascii (s : string) : ascii_of_N <$> lit s = list_ascii_of_string s.
Proof.
  unfold lit. rewrite <- list_fmap_compose.
  induction (list_ascii_of_string s) as [|c l IH]; [done|].
  cbn [fmap list_fmap compose]. f_equal; [apply ascii_N_embedding | exact IH].
Qed.

(** [number_to_string] writes the decimal numeral of the number: reading
    the digits back gives the number. *)
Lemma parse_number_to_string (n : Z) : parse_number (number_to_string n) = Some n.
Proof.
  unfold parse_number, number_to_string.
  rewrite lit_ascii, string_of_list_ascii_of_string.
  assert (Z.to_int n = Decimal.norm (Z.to_int n)) as Hn.
  { rewrite <- DecimalZ.to_of. by rewrite DecimalZ.of_to. }
  rewrite NilZero.isi.
  - simpl. by rewrite DecimalZ.of_to.
  - intros E. by rewrite E in Hn.
  - intros E. by rewrite E in Hn.
Qed.

(** C9, as the code has it: for a response whose status is not 2xx and
    whose body can be read, [api] rejects with an error whose message is the
    body text when that text is not empty, and "Request failed (<status>)"
    with the decimal status code when it is; when reading the body fails,
    the message is the one of that failure. *)
Theorem api_non_2xx_message {T : Type} (res : Response T) :
  res_ok res = false →
  ∃ m, api (Responded res) = Rejected (ErrorObj m)
       ∧ (∀ text, res_text res = inr text → text ≠ [] → m = text)
       ∧ (res_text res = inr [] →
            m = lit "Request failed (" ++ number_to_string (res_status res)
                  ++ lit ")")
       ∧ (∀ failure, res_text res = inl failure → m = failure).
Proof.
  intros Hok. unfold api. rewrite Hok. cbn [negb].
  destruct (res_text res) as [failure|text].
  - eexists. split; [reflexivity|].
    split; [done|]. split; [done|]. by intros ? [= ->].
  - eexists. split; [reflexivity|]. unfold or_else, request_failed.
    split; [|split; [|done]].
    + intros ? [= <-] Hne. by destruct text.
    + by intros [= ->].
Qed.

Lemma api_non_2xx_message_witness :
  res_ok bad_gateway = false
  ∧ ∃ m, api (Responded bad_gateway) = Rejected (ErrorObj m)
       ∧ (∀ text, res_text bad_gateway = inr text → text ≠ [] → m = text)
       ∧ (res_text bad_gateway = inr [] →
            m = lit "Request failed (" ++ number_to_string (res_status bad_gateway)
                  ++ lit ")")
       ∧ (∀ failure, res_text bad_gateway = inl failure → m = failure).
Proof.
  split; [reflexivity|].
  apply (api_non_2xx_message bad_gateway). reflexivity.
Defined.

(** C9, as stated, fails when the body of a non-2xx response cannot be
    read: [res.text()] rejects, nothing catches it, and the error that
    reaches the controller carries the message of that rejection, which is
    not the synthesized "Request failed (500)". *)
Lemma api_unreadable_body_surfaces_read_error :
  res_ok broken_body = false
  ∧ api (Responded broken_body) = Rejected (ErrorObj (lit "terminated"))
  ∧ lit "terminated" ≠ request_failed (res_status broken_body).
Proof. repeat split. discriminate. Qed.

Example api_bad_gateway :
  api (Responded bad_gateway) = Rejected (ErrorObj (lit "Request failed (502)")).
Proof. reflexivity. Qed.

Example api_not_found :
  api (Responded not_found) = Rejected (ErrorObj (lit "Not Found")).
Proof. reflexivity. Qed.

(** X5: whatever [api] rejects with is an [Error], so the fallback texts of the
    [catch] clauses are never shown for a failed request. *)
Lemma api_rejects_with_Error {T : Type} (f : Fetched T) (e : Thrown) :
  api f = Rejected e → ∃ m, e = ErrorObj m.
Proof.
  unfold api. destruct f as [m|res]; [intros [= <-]; eauto|].
  destruct (negb (res_ok res));
    [destruct (res_text res); intros [= <-]; eauto|].
  destruct (includes _ _); [|done].
  destruct (res_json res); [intros [= <-]; eauto | done].
Qed.

(** ** The sync controller *)

Lemma lookup_snoc {A : Type} (l : list A) (x : A) :
  (l ++ [x]) !! length l = Some x.
Proof. by induction l. Qed.

Lemma delete_snoc {A : Type} (l : list A) (x : A) :
  delete (length l) (l ++ [x]) = l.
Proof. induction l as [|y l IH]; [done|]. simpl. by rewrite IH. Qed.

(** The request issued last settles: its continuation runs on the current
    state and the requests issued before it stay in flight. *)
Lemma settle_issued (r : Request) (k : Continuation) (s s' : State) (a : App)
    (o : Settled Reply) :
  resume k o s = Some s' →
  settle (length (inflight a)) o (issue r k s a)
    = Some {| st := s'; inflight := inflight a |}.
Proof.
  intros Hk. unfold settle, issue. cbn [inflight st].
  rewrite lookup_snoc. cbn [awaiting]. rewrite Hk.
  by rewrite delete_snoc.
Qed.

Lemma truthy_nil (s : jsstring) : truthy s = false ↔ s = [].
Proof. by destruct s. Qed.

(** [cancelEdit] touches the edit-session cells and nothing else. *)
Lemma cancelEdit_fields (s : State) :
  editingId (cancelEdit s) = None
  ∧ editingText (cancelEdit s) = []
  ∧ savingEdit (cancelEdit s) = false
  ∧ notes (cancelEdit s) = notes s
  ∧ newText (cancelEdit s) = newText s
  ∧ err (cancelEdit s) = err s
  ∧ isLoading (cancelEdit s) = isLoading s
  ∧ isAdding (cancelEdit s) = isAdding s
  ∧ deletingId (cancelEdit s) = deletingId s.
Proof. repeat split. Qed.

(** C1: when a SaveEdit request succeeds, every local note whose id is the
    id of the returned record becomes the returned record, position by
    position, and the others stay as they are; this is so whether or not
    CancelEdit was invoked while the request was in flight. *)
Theorem saveEdit_fulfilled_replaces_by_id (a : App) (k : nat) (p : Pending)
    (updated : Note.t) (cancelled : bool) :
  inflight a !! k = Some p →
  awaiting p = AwaitSave →
  let a0 := if cancelled then invoke CancelEdit a else a in
  ∃ a', step (Settle k (Fulfilled (OneNote updated))) a0 = Some a'
    ∧ length (notes (st a')) = length (notes (st a))
    ∧ ∀ (i : nat) (n : Note.t),
        notes (st a) !! i = Some n →
        notes (st a') !! i
          = Some (if decide (Note.id n = Note.id updated) then updated else n).
Proof.
  intros Hp Hk a0.
  assert (inflight a0 = inflight a ∧ notes (st a0) = notes (st a)) as [Hi Hn].
  { subst a0. by destruct cancelled. }
  unfold step, settle. rewrite Hi, Hp, Hk. cbn [resume].
  eexists. split; [reflexivity|]. cbn [st].
  unfold saveEdit_settled.
  destruct (cancelEdit_fields
    (setNotes ((λ n, if decide (Note.id n = Note.id updated) then updated else n)
                 <$> notes (st a0)) (st a0))) as (_ & _ & _ & -> & _).
  cbn [setNotes notes]. rewrite Hn. split.
  - by rewrite length_fmap.
  - intros i n Hin. by rewrite list_lookup_fmap, Hin.
Qed.

(** C10: when a SaveEdit request succeeds, [cancelEdit] runs whatever the
    edit session is at that moment, also one started for another note after
    a CancelEdit: no session is open afterwards. *)
Theorem saveEdit_fulfilled_closes_any_session (a : App) (k : nat) (p : Pending)
    (updated other : Note.t) (restarted : bool) :
  inflight a !! k = Some p →
  awaiting p = AwaitSave →
  let a0 :=
    if restarted then invoke (StartEdit other) (invoke CancelEdit a) else a in
  ∃ a', step (Settle k (Fulfilled (OneNote updated))) a0 = Some a'
    ∧ editingId (st a') = None
    ∧ editingText (st a') = []
    ∧ savingEdit (st a') = false.
Proof.
  intros Hp Hk a0.
  assert (inflight a0 = inflight a) as Hi.
  { subst a0. by destruct restarted. }
  unfold step, settle. rewrite Hi, Hp, Hk. cbn [resume].
  eexists. split; [reflexivity|]. cbn [st]. done.
Qed.

(** A failed save leaves everything but [err] and [savingEdit] alone,
    whatever the state it settles in. *)
Lemma saveEdit_rejected_fields (e : Thrown) (s : State) :
  let s' := saveEdit_settled (Rejected e) s in
  err s' = catch_message e (lit "Failed to update note.")
  ∧ savingEdit s' = false
  ∧ editingId s' = editingId s
  ∧ editingText s' = editingText s
  ∧ notes s' = notes s.
Proof. repeat split. Qed.

(** C5: with an edit session open, when the SaveEdit request fails the
    session stays open on the same note with the same draft, [savingEdit] is
    false and [err] holds the message of the failure. *)
Theorem saveEdit_rejected_keeps_session (a : App) (id : Z) (e : Thrown) :
  editingId (st a) = Some id →
  trim (editingText (st a)) ≠ [] →
  savingEdit (st a) = false →
  ∃ a', run [Invoke SaveEdit; Settle (length (inflight a)) (Rejected e)] a
          = Some a'
    ∧ editingId (st a') = Some id
    ∧ editingText (st a') = editingText (st a)
    ∧ savingEdit (st a') = false
    ∧ err (st a') = catch_message e (lit "Failed to update note.")
    ∧ ∀ m, e = ErrorObj m → err (st a') = m.
Proof.
  intros Hid Ht Hs.
  cbn [run step invoke]. unfold saveEdit. rewrite Hid, Hs.
  destruct (truthy (trim (editingText (st a)))) eqn:E;
    [|by apply truthy_nil in E].
  cbn [negb orb].
  erewrite settle_issued by reflexivity.
  eexists. split; [reflexivity|]. cbn.
  repeat split; try done. by intros m ->.
Qed.

(** C7: Create with a blank input or while [isAdding], and SaveEdit with a
    blank draft or while [savingEdit], return at once: the state and the
    requests in flight are what they were. *)
Theorem blank_or_busy_is_noop (a : App) (c : Call) :
  (c = AddNote ∧ (trim (newText (st a)) = [] ∨ isAdding (st a) = true))
  ∨ (c = SaveEdit ∧ (trim (editingText (st a)) = [] ∨ savingEdit (st a) = true)) →
  invoke c a = a.
Proof.
  intros [[-> H]|[-> H]]; cbn [invoke].
  - unfold addNote. destruct H as [->| ->]; [done|].
    by rewrite orb_true_r.
  - unfold saveEdit. destruct (editingId (st a)); [|done].
    destruct H as [->| ->]; [done|]. by rewrite orb_true_r.
Qed.

(** The Edit button of every row is disabled while a session is open. *)
Lemma edit_disabled_while_editing (s : State) (n : Note.t) :
  editingId s ≠ None → edit_disabled s n = true.
Proof.
  intros H. unfold edit_disabled. by rewrite bool_decide_eq_true_2.
Qed.

(** C2: while an edit session is open, StartEdit on any note is rejected
    and changes no state.  The Edit button, the only caller of [startEdit],
    is disabled on every row, so the request is no step of the component,
    and the click leaves the state and the requests in flight as they are:
    [editingId], the draft and [err] keep their values. *)
Theorem startEdit_rejected_while_editing (a : App) (note : Note.t) :
  editingId (st a) ≠ None →
  enabled (st a) (StartEdit note) = false
  ∧ ui_step (Invoke (StartEdit note)) a = None
  ∧ click (StartEdit note) a = a
  ∧ editingId (st (click (StartEdit note) a)) = editingId (st a)
  ∧ editingText (st (click (StartEdit note) a)) = editingText (st a)
  ∧ err (st (click (StartEdit note) a)) = err (st a).
Proof.
  intros H.
  assert (enabled (st a) (StartEdit note) = false) as He.
  { cbn [enabled]. rewrite edit_disabled_while_editing by done.
    apply andb_false_r. }
  unfold click. cbn [ui_step]. rewrite He. repeat split; done.
Qed.

Lemma filter_by_id_sublist (id : Z) (l : list Note.t) :
  ids (filter (λ n, Note.id n ≠ id) l) `sublist_of` ids l.
Proof. unfold ids. apply fmap_sublist, sublist_filter. Qed.

(** C6: a Delete request issued for [id] that succeeds leaves the notes
    whose id is not [id], in their order, and closes the edit session that
    was open on [id] when Delete was invoked (another session stays as it
    is); whether the request succeeds or fails, [deletingId] is cleared, and
    on failure the notes are untouched. *)
Theorem deleteNote_removes_by_id (a : App) (id : Z) (e : Thrown) :
  deletingId (st a) = None →
  (∃ a', run [Invoke (DeleteNote id);
              Settle (length (inflight a)) (Fulfilled Deleted)] a = Some a'
     ∧ notes (st a') = filter (λ n, Note.id n ≠ id) (notes (st a))
     ∧ notes (st a') `sublist_of` notes (st a)
     ∧ (∀ n, n ∈ notes (st a') ↔ n ∈ notes (st a) ∧ Note.id n ≠ id)
     ∧ (editingId (st a) = Some id →
          editingId (st a') = None ∧ editingText (st a') = []
          ∧ savingEdit (st a') = false)
     ∧ (editingId (st a) ≠ Some id →
          editingId (st a') = editingId (st a)
          ∧ editingText (st a') = editingText (st a)
          ∧ savingEdit (st a') = savingEdit (st a))
     ∧ deletingId (st a') = None)
  ∧ (∃ a', run [Invoke (DeleteNote id);
                Settle (length (inflight a)) (Rejected e)] a = Some a'
       ∧ notes (st a') = notes (st a)
       ∧ deletingId (st a') = None).
Proof.
  intros Hd. cbn [run step invoke]. unfold deleteNote. rewrite Hd.
  split.
  - erewrite settle_issued by reflexivity.
    eexists. split; [reflexivity|]. cbn [st].
    unfold deleteNote_settled. cbn [setErr setDeletingId editingId notes].
    assert (∀ s, notes (if decide (editingId (st a) = Some id)
                        then cancelEdit s else s) = notes s) as Hn.
    { intros s. by destruct (decide _). }
    cbn [setDeletingId notes deletingId editingId editingText savingEdit].
    rewrite Hn. cbn [setNotes notes].
    split; [done|]. split; [apply sublist_filter|].
    split; [intros n; rewrite list_elem_of_filter; tauto|].
    split; [|split; [|done]].
    + intros He. by rewrite decide_True.
    + intros He. by rewrite decide_False.
  - erewrite settle_issued by reflexivity.
    eexists. split; [reflexivity|]. done.
Qed.

(** C8, as the code has it: when a Load, Create or Delete request fails,
    [err] holds the message of the failure, and the notes, the input draft,
    the edit session and the requests in flight are what they were before
    the attempt; the operation's own busy flag ends cleared, which is its
    value before the attempt for Create and Delete, and for Load when
    [isLoading] was false before. *)
Theorem rejected_request_sets_only_err (a : App) (c : Call) (e : Thrown) :
  c = LoadNotes
  ∨ (c = AddNote ∧ trim (newText (st a)) ≠ [] ∧ isAdding (st a) = false)
  ∨ (∃ id, c = DeleteNote id ∧ deletingId (st a) = None) →
  ∃ a', run [Invoke c; Settle (length (inflight a)) (Rejected e)] a = Some a'
    ∧ err (st a') = catch_message e (fallback c)
    ∧ (∀ m, e = ErrorObj m → err (st a') = m)
    ∧ notes (st a') = notes (st a)
    ∧ newText (st a') = newText (st a)
    ∧ editingId (st a') = editingId (st a)
    ∧ editingText (st a') = editingText (st a)
    ∧ savingEdit (st a') = savingEdit (st a)
    ∧ isAdding (st a') = isAdding (st a)
    ∧ deletingId (st a') = deletingId (st a)
    ∧ isLoading (st a')
        = match c with LoadNotes => false | _ => isLoading (st a) end
    ∧ inflight a' = inflight a.
Proof.
  intros [->|[(-> & Ht & Hb)|(id & -> & Hd)]]; cbn [run step invoke].
  - unfold loadNotes. erewrite settle_issued by reflexivity.
    eexists. split; [reflexivity|]. cbn.
    repeat split; try done. by intros m ->.
  - unfold addNote. rewrite Hb.
    destruct (truthy (trim (newText (st a)))) eqn:E;
      [|by apply truthy_nil in E].
    cbn [negb orb]. erewrite settle_issued by reflexivity.
    eexists. split; [reflexivity|]. cbn.
    repeat split; try done. by intros m ->.
  - unfold deleteNote. rewrite Hd. erewrite settle_issued by reflexivity.
    eexists. split; [reflexivity|]. cbn.
    repeat split; try done. by intros m ->.
Qed.

(** ** At most one note per id *)

(** No call changes the notes before its request settles. *)
Lemma invoke_notes (c : Call) (a : App) :
  notes (st (invoke c a)) = notes (st a).
Proof.
  destruct c; cbn [invoke]; try done.
  - unfold addNote. by destruct (_ || _).
  - unfold saveEdit. destruct (editingId (st a)); [|done].
    by destruct (_ || _).
  - unfold deleteNote. by destruct (deletingId (st a)).
Qed.

(** Replacing by id keeps the sequence of ids. *)
Lemma replace_by_id_ids (updated : Note.t) (l : list Note.t) :
  ids ((λ n, if decide (Note.id n = Note.id updated) then updated else n) <$> l)
    = ids l.
Proof.
  unfold ids. rewrite <- list_fmap_compose. apply list_fmap_ext.
  intros i n _. cbn [compose]. by destruct (decide _).
Qed.

Lemma step_unique_ids (ev : Event) (a a' : App) :
  unique_ids a → brings_no_duplicate a ev → step ev a = Some a' →
  unique_ids a'.
Proof.
  unfold unique_ids. intros Hu Hev Hstep.
  destruct ev as [c|k o]; cbn [step] in Hstep.
  { injection Hstep as <-. by rewrite invoke_notes. }
  unfold settle in Hstep. cbn [brings_no_duplicate] in Hev.
  destruct (inflight a !! k) as [p|]; [|done]. cbn [fmap option_fmap option_map] in Hev.
  destruct (awaiting p) as [| | |id eid], o as [[data|n|]|e];
    cbn [resume] in Hstep; try done; injection Hstep as <-; cbn [st];
    try exact Hu.
  - exact Hev.
  - cbn. apply NoDup_cons_2; [exact Hev | exact Hu].
  - unfold saveEdit_settled.
    destruct (cancelEdit_fields
      (setNotes ((λ m, if decide (Note.id m = Note.id n) then n else m)
                   <$> notes (st a)) (st a))) as (_ & _ & _ & -> & _).
    cbn [setNotes notes]. by rewrite replace_by_id_ids.
  - unfold deleteNote_settled. cbn [setDeletingId notes].
    assert (∀ s, notes (if decide (eid = Some id) then cancelEdit s else s)
                 = notes s) as -> by (intros s; by destruct (decide _)).
    cbn [setNotes notes].
    eapply sublist_NoDup; [exact Hu | apply filter_by_id_sublist].
Qed.

(** C3, as the code has it: the local collection holds at most one note per
    id in every state reached by the operations, in any interleaving, as long
    as each Load reply lists no id twice and each Create reply carries an id
    that is not in the local collection when it arrives. *)
Theorem unique_ids_without_duplicate_replies (a : App) :
  duplicate_free_run a → unique_ids a.
Proof.
  induction 1 as [|a a' ev _ IH Hev Hstep].
  - apply NoDup_nil_2.
  - by eapply step_unique_ids.
Qed.

(** ** Concrete runs *)

Lemma editing_note1_reached : ui_run open_session mounted = Some editing_note1.
Proof. reflexivity. Qed.

Lemma saving_note1_inflight : inflight saving_note1 = [put_note1].
Proof. reflexivity. Qed.

Lemma failed_save_reached :
  ui_run (open_session ++ [Invoke SaveEdit; Settle 0 (Rejected boom)]) mounted
    = Some failed_save.
Proof. reflexivity. Qed.

Lemma saveEdit_fulfilled_replaces_by_id_witness :
  inflight saving_note1 !! 0%nat = Some put_note1
  ∧ awaiting put_note1 = AwaitSave
  ∧ ∃ a', step (Settle 0 (Fulfilled (OneNote note1_saved)))
               (invoke CancelEdit saving_note1) = Some a'
      ∧ length (notes (st a')) = length (notes (st saving_note1))
      ∧ ∀ (i : nat) (n : Note.t),
          notes (st saving_note1) !! i = Some n →
          notes (st a') !! i
            = Some (if decide (Note.id n = Note.id note1_saved)
                    then note1_saved else n).
Proof.
  split; [reflexivity|]. split; [reflexivity|].
  apply (saveEdit_fulfilled_replaces_by_id
           saving_note1 0 put_note1 note1_saved true); reflexivity.
Defined.

Lemma saveEdit_fulfilled_closes_any_session_witness :
  inflight saving_note1 !! 0%nat = Some put_note1
  ∧ awaiting put_note1 = AwaitSave
  ∧ ∃ a', step (Settle 0 (Fulfilled (OneNote note1_saved)))
               (invoke (StartEdit note2) (invoke CancelEdit saving_note1))
            = Some a'
      ∧ editingId (st a') = None
      ∧ editingText (st a') = []
      ∧ savingEdit (st a') = false.
Proof.
  split; [reflexivity|]. split; [reflexivity|].
  apply (saveEdit_fulfilled_closes_any_session
           saving_note1 0 put_note1 note1_saved note2 true); reflexivity.
Defined.

(** The user saves note 1, cancels, opens note 2, and the save of note 1
    then succeeds: note 1 is replaced and the session on note 2 is closed. *)
Example stale_save_closes_session_on_note2 :
  ui_run (open_session ++ [Invoke SaveEdit]) mounted = Some saving_note1
  ∧ editingId ∘ st <$> ui_run [Invoke CancelEdit; Invoke (StartEdit note2)]
                              saving_note1
    = Some (Some 2)
  ∧ st <$> ui_run [Invoke CancelEdit; Invoke (StartEdit note2);
                   Settle 0 (Fulfilled (OneNote note1_saved))] saving_note1
    = Some {| notes := [note1_saved; note2]; newText := []; err := [];
              isLoading := false; isAdding := false; deletingId := None;
              editingId := None; editingText := []; savingEdit := false |}.
Proof. repeat split. Qed.

Lemma saveEdit_rejected_keeps_session_witness :
  editingId (st editing_note1) = Some 1
  ∧ trim (editingText (st editing_note1)) ≠ []
  ∧ savingEdit (st editing_note1) = false
  ∧ ∃ a', run [Invoke SaveEdit;
               Settle (length (inflight editing_note1)) (Rejected boom)]
              editing_note1 = Some a'
      ∧ editingId (st a') = Some 1
      ∧ editingText (st a') = editingText (st editing_note1)
      ∧ savingEdit (st a') = false
      ∧ err (st a') = catch_message boom (lit "Failed to update note.")
      ∧ ∀ m, boom = ErrorObj m → err (st a') = m.
Proof.
  split; [reflexivity|]. split; [discriminate|]. split; [reflexivity|].
  apply (saveEdit_rejected_keeps_session editing_note1 1 boom);
    [reflexivity | discriminate | reflexivity].
Defined.

Lemma blank_or_busy_is_noop_witness :
  ((AddNote = AddNote
    ∧ (trim (newText (st blank_input)) = [] ∨ isAdding (st blank_input) = true))
   ∨ (AddNote = SaveEdit
      ∧ (trim (editingText (st blank_input)) = []
         ∨ savingEdit (st blank_input) = true)))
  ∧ invoke AddNote blank_input = blank_input.
Proof.
  assert ((AddNote = AddNote
    ∧ (trim (newText (st blank_input)) = [] ∨ isAdding (st blank_input) = true))
   ∨ (AddNote = SaveEdit
      ∧ (trim (editingText (st blank_input)) = []
         ∨ savingEdit (st blank_input) = true))) as H.
  { left. split; [reflexivity|]. left. reflexivity. }
  split; [exact H|].
  exact (blank_or_busy_is_noop blank_input AddNote H).
Defined.

Example saveEdit_while_saving_is_noop :
  invoke SaveEdit saving_note1 = saving_note1.
Proof. reflexivity. Qed.

(** [startEdit] itself has no check, and the component never calls it while
    a session is open.  Called directly on the session of note 1, it would
    move the session to note 2 and clear the error. *)
Example startEdit_has_no_guard :
  editingId (st failed_save) = Some 1
  ∧ editingId (st (invoke (StartEdit note2) failed_save)) = Some 2
  ∧ editingText (st (invoke (StartEdit note2) failed_save)) = lit "two"
  ∧ err (st (invoke (StartEdit note2) failed_save)) = [].
Proof. repeat split. Qed.

Lemma startEdit_rejected_while_editing_witness :
  editingId (st failed_save) ≠ None
  ∧ enabled (st failed_save) (StartEdit note2) = false
  ∧ ui_step (Invoke (StartEdit note2)) failed_save = None
  ∧ click (StartEdit note2) failed_save = failed_save
  ∧ editingId (st (click (StartEdit note2) failed_save))
      = editingId (st failed_save)
  ∧ editingText (st (click (StartEdit note2) failed_save))
      = editingText (st failed_save)
  ∧ err (st (click (StartEdit note2) failed_save)) = err (st failed_save).
Proof.
  split; [discriminate|].
  apply (startEdit_rejected_while_editing failed_save note2). discriminate.
Defined.

Lemma deleteNote_removes_by_id_witness :
  deletingId (st editing_note1) = None
  ∧ (∃ a', run [Invoke (DeleteNote 1);
                Settle (length (inflight editing_note1)) (Fulfilled Deleted)]
               editing_note1 = Some a'
       ∧ notes (st a') = filter (λ n, Note.id n ≠ 1) (notes (st editing_note1))
       ∧ notes (st a') `sublist_of` notes (st editing_note1)
       ∧ (∀ n, n ∈ notes (st a') ↔ n ∈ notes (st editing_note1) ∧ Note.id n ≠ 1)
       ∧ (editingId (st editing_note1) = Some 1 →
            editingId (st a') = None ∧ editingText (st a') = []
            ∧ savingEdit (st a') = false)
       ∧ (editingId (st editing_note1) ≠ Some 1 →
            editingId (st a') = editingId (st editing_note1)
            ∧ editingText (st a') = editingText (st editing_note1)
            ∧ savingEdit (st a') = savingEdit (st editing_note1))
       ∧ deletingId (st a') = None)
  ∧ (∃ a', run [Invoke (DeleteNote 1);
                Settle (length (inflight editing_note1)) (Rejected boom)]
               editing_note1 = Some a'
       ∧ notes (st a') = notes (st editing_note1)
       ∧ deletingId (st a') = None).
Proof.
  split; [reflexivity|].
  apply (deleteNote_removes_by_id editing_note1 1 boom). reflexivity.
Defined.

Example delete_1_of_1_2 :
  st <$> run [Invoke (DeleteNote 1); Settle 0 (Fulfilled Deleted)] editing_note1
    = Some {| notes := [note2]; newText := []; err := [];
              isLoading := false; isAdding := false; deletingId := None;
              editingId := None; editingText := []; savingEdit := false |}.
Proof. reflexivity. Qed.

(** C8, as stated, fails for the Load of the mount effect: [isLoading] is
    true before it (the initial value) and false after it has failed. *)
Lemma failed_mount_load_clears_isLoading :
  ∃ a', run [Invoke LoadNotes; Settle 0 (Rejected boom)] initial = Some a'
        ∧ err (st a') = lit "Request failed (500)"
        ∧ notes (st a') = notes (st initial)
        ∧ isLoading (st initial) = true
        ∧ isLoading (st a') = false.
Proof. eexists. split; [reflexivity|]. repeat split. Qed.

Lemma rejected_request_sets_only_err_witness :
  (AddNote = LoadNotes
   ∨ (AddNote = AddNote ∧ trim (newText (st (invoke (SetNewText (lit " new ")) editing_note1))) ≠ []
      ∧ isAdding (st (invoke (SetNewText (lit " new ")) editing_note1)) = false)
   ∨ (∃ id, AddNote = DeleteNote id
            ∧ deletingId (st (invoke (SetNewText (lit " new ")) editing_note1)) = None))
  ∧ ∃ a', run [Invoke AddNote;
               Settle (length (inflight (invoke (SetNewText (lit " new ")) editing_note1)))
                      (Rejected boom)]
              (invoke (SetNewText (lit " new ")) editing_note1) = Some a'
      ∧ err (st a') = catch_message boom (fallback AddNote)
      ∧ newText (st a') = lit " new "
      ∧ notes (st a') = [note1; note2]
      ∧ editingId (st a') = Some 1.
Proof.
  assert (AddNote = LoadNotes
   ∨ (AddNote = AddNote ∧ trim (newText (st (invoke (SetNewText (lit " new ")) editing_note1))) ≠ []
      ∧ isAdding (st (invoke (SetNewText (lit " new ")) editing_note1)) = false)
   ∨ (∃ id, AddNote = DeleteNote id
            ∧ deletingId (st (invoke (SetNewText (lit " new ")) editing_note1)) = None))
    as H.
  { right. left. split; [reflexivity|]. split; [discriminate | reflexivity]. }
  split; [exact H|].
  destruct (rejected_request_sets_only_err
              (invoke (SetNewText (lit " new ")) editing_note1) AddNote boom H)
    as (a' & Hrun & Herr & _ & Hn & Ht & Hid & _).
  exists a'. repeat split; assumption.
Defined.

(** C3, as stated, fails: a refresh is requested while a create is in
    flight, the store creates the note before it answers the refresh, and the
    answer to the refresh arrives first.  The list then holds the new note,
    and the answer to the create prepends it again. *)
Lemma create_during_refresh_duplicates :
  ∃ a, run create_during_refresh initial = Some a
       ∧ reachable a
       ∧ notes (st a) = [note5; note5]
       ∧ ¬ unique_ids a.
Proof.
  eexists. split; [reflexivity|]. split; [by exists create_during_refresh|].
  split; [reflexivity|].
  unfold unique_ids. cbn. intros H. apply NoDup_cons_1_1 in H.
  apply H. apply list_elem_of_here.
Qed.

(** Every step of that run is one the view lets through. *)
Lemma create_during_refresh_by_user :
  ui_run (tail create_during_refresh) mounted
    = run create_during_refresh initial.
Proof. reflexivity. Qed.

Lemma editing_note1_duplicate_free : duplicate_free_run editing_note1.
Proof.
  apply (dfr_step loaded editing_note1 (Invoke (StartEdit note1)));
    [|exact I|reflexivity].
  apply (dfr_step mounted loaded (Settle 0 (Fulfilled (Notes [note1; note2]))));
    [| |reflexivity].
  - apply (dfr_step initial mounted (Invoke LoadNotes));
      [apply dfr_initial|exact I|reflexivity].
  - cbn. apply NoDup_cons_2; [|apply NoDup_singleton].
    intros H. apply list_elem_of_singleton in H. discriminate.
Defined.

Lemma unique_ids_without_duplicate_replies_witness :
  duplicate_free_run editing_note1 ∧ unique_ids editing_note1.
Proof.
  split; [exact editing_note1_duplicate_free|].
  exact (unique_ids_without_duplicate_replies editing_note1
           editing_note1_duplicate_free).
Defined.

(** ** Deletes driven by the view *)

Lemma delete_slot_issue (r : Request) (k : Continuation) (s : State) (a : App) :
  delete_slot a →
  (∀ id e, k ≠ AwaitDelete id e) →
  deletingId s = deletingId (st a) →
  (editingId s = editingId (st a) ∨ editingId s = None) →
  delete_slot (issue r k s a).
Proof.
  unfold delete_slot, issue. cbn [inflight st]. intros H Hk Hd He.
  rewrite omap_app. cbn [omap list_omap]. unfold pending_delete at 2.
  cbn [awaiting].
  assert (match k with AwaitDelete id e => Some (id, e) | _ => None end
          = None) as -> by (destruct k as [| | |i e0]; [done..|by destruct (Hk i e0)]).
  rewrite app_nil_r.
  destruct (omap pending_delete (inflight a)) as [|[id e] [|? ?]];
    try rewrite Hd; [done| |done].
  destruct H as (? & ? & ?). destruct He as [-> | ->]; done.
Qed.

Lemma delete_slot_with_state (s : State) (a : App) :
  delete_slot a →
  deletingId s = deletingId (st a) →
  (∀ id, deletingId (st a) = Some id → editingId s ≠ Some id) →
  delete_slot (with_state s a).
Proof.
  unfold delete_slot, with_state. cbn [inflight st]. intros H Hd He.
  destruct (omap pending_delete (inflight a)) as [|[id e] [|? ?]];
    try rewrite Hd; [done| |done].
  destruct H as (Hid & ? & ?). split; [done|]. split; [|done]. by apply He.
Qed.

Lemma delete_slot_invoke (c : Call) (a : App) :
  delete_slot a → enabled (st a) c = true → delete_slot (invoke c a).
Proof.
  intros H Hen. destruct c as [|v| |note|v| | |id]; cbn [invoke].
  - apply delete_slot_issue; [done|done|done|by left].
  - apply delete_slot_with_state; [done|done|].
    intros id Hid. cbn. unfold delete_slot in H.
    destruct (omap pending_delete (inflight a)) as [|[id' e] [|? ?]];
      [congruence| |done].
    destruct H as (Hd & He & _). congruence.
  - unfold addNote. destruct (_ || _); [done|].
    apply delete_slot_issue; [done|done|done|by left].
  - apply delete_slot_with_state; [done|done|].
    intros id Hid. cbn. cbn [enabled] in Hen.
    apply andb_true_iff in Hen as [_ Hen]. apply negb_true_iff in Hen.
    unfold edit_disabled, isDeleting in Hen.
    apply orb_false_iff in Hen as [_ Hen].
    apply bool_decide_eq_false_1 in Hen. congruence.
  - apply delete_slot_with_state; [done|done|].
    intros id Hid. cbn. unfold delete_slot in H.
    destruct (omap pending_delete (inflight a)) as [|[id' e] [|? ?]];
      [congruence| |done].
    destruct H as (Hd & He & _). congruence.
  - apply delete_slot_with_state; [done|done|]. intros id _. by cbn.
  - unfold saveEdit. destruct (editingId (st a)) eqn:E; [|done].
    destruct (_ || _); [done|].
    apply delete_slot_issue; [done|done|done|by left].
  - unfold deleteNote. destruct (deletingId (st a)) eqn:Hd; [done|].
    unfold delete_slot in *. unfold issue. cbn [inflight st].
    rewrite omap_app.
    destruct (omap pending_delete (inflight a)) as [|[id' e] [|? ?]];
      [|destruct H; congruence|done].
    cbn. cbn [enabled] in Hen.
    apply andb_true_iff in Hen as [_ Hen].
    apply existsb_exists in Hen as (n & _ & Hn).
    apply andb_true_iff in Hn as [Hid Hn].
    apply bool_decide_eq_true_1 in Hid. apply negb_true_iff in Hn.
    unfold delete_disabled in Hn. apply orb_false_iff in Hn as [_ Hn].
    apply bool_decide_eq_false_1 in Hn. rewrite Hid in Hn. done.
Qed.

Lemma delete_slot_settle (k : nat) (o : Settled Reply) (a a' : App) :
  delete_slot a → settle k o a = Some a' → delete_slot a'.
Proof.
  unfold settle. intros H Hs.
  destruct (inflight a !! k) as [p|] eqn:Hp; [|done].
  destruct (resume (awaiting p) o (st a)) as [s|] eqn:Hr; [|done].
  injection Hs as <-. unfold delete_slot in *. cbn [inflight st].
  rewrite delete_take_drop, omap_app.
  rewrite <- (take_drop_middle _ _ _ Hp), omap_app in H.
  cbn [omap list_omap] in H. unfold pending_delete at 2 in H.
  destruct (awaiting p) as [| | |id e] eqn:Hk.
  - assert (deletingId s = deletingId (st a) ∧ editingId s = editingId (st a))
      as [-> ->]; [|exact H].
    destruct o as [[data|n|]|e]; cbn [resume] in Hr; try done;
      by injection Hr as <-.
  - assert (deletingId s = deletingId (st a) ∧ editingId s = editingId (st a))
      as [-> ->]; [|exact H].
    destruct o as [[data|n|]|e]; cbn [resume] in Hr; try done;
      by injection Hr as <-.
  - assert (deletingId s = deletingId (st a)
            ∧ (editingId s = editingId (st a) ∨ editingId s = None))
      as [-> He].
    { destruct o as [[data|n|]|e]; cbn [resume] in Hr; try done;
        injection Hr as <-; split; auto. }
    destruct (omap pending_delete (take k (inflight a))
              ++ omap pending_delete (drop (S k) (inflight a)))
      as [|[id e] [|? ?]]; [done| |done].
    destruct H as (? & ? & ?). destruct He as [-> | ->]; done.
  - destruct (omap pending_delete (take k (inflight a))) as [|[id1 e1] l1].
    + cbn in H.
      destruct (omap pending_delete (drop (S k) (inflight a)))
        as [|? ?]; [|done].
      cbn. destruct o as [[data|n|]|e']; cbn [resume] in Hr; try done;
        by injection Hr as <-.
    + cbn in H. by destruct l1.
Qed.

Lemma delete_slot_ui_run (evs : list Event) (a a' : App) :
  delete_slot a → ui_run evs a = Some a' → delete_slot a'.
Proof.
  revert a. induction evs as [|ev evs IH]; intros a H Hrun; cbn in Hrun.
  - by injection Hrun as <-.
  - destruct ev as [c|k o]; cbn [ui_step] in Hrun.
    + destruct (enabled (st a) c) eqn:Hen; [|done].
      eapply IH; [|exact Hrun]. by apply delete_slot_invoke.
    + destruct (settle k o a) as [a1|] eqn:Hs; [|done].
      eapply IH; [|exact Hrun]. by eapply delete_slot_settle.
Qed.

(** Driven through the view, at most one delete is in flight, [deletingId]
    names it, and no edit session is ever open on the note being deleted:
    the [cancelEdit] of [deleteNote] never runs. *)
Theorem ui_reachable_delete_slot (a : App) : ui_reachable a → delete_slot a.
Proof.
  intros [evs Hrun]. eapply delete_slot_ui_run; [|exact Hrun]. by cbn.
Qed.

(** X21: driven through the view, while a delete of a note is in flight
    deletingId is that note's id, no edit session is open on that note,
    and none was when deleteNote was called: the cancelEdit branch of
    deleteNote is never taken. *)
Corollary ui_delete_in_flight (a : App) (k : nat) (p : Pending) (id : Z)
    (remembered : option Z) :
  ui_reachable a →
  inflight a !! k = Some p →
  awaiting p = AwaitDelete id remembered →
  deletingId (st a) = Some id
  ∧ editingId (st a) ≠ Some id
  ∧ remembered ≠ Some id.
Proof.
  intros Hr Hp Hk. apply ui_reachable_delete_slot in Hr.
  unfold delete_slot in Hr.
  rewrite <- (take_drop_middle _ _ _ Hp), omap_app in Hr.
  cbn [omap list_omap] in Hr. unfold pending_delete at 2 in Hr.
  rewrite Hk in Hr.
  destruct (omap pending_delete (take k (inflight a))) as [|[id1 e1] l1].
  - cbn in Hr.
    by destruct (omap pending_delete (drop (S k) (inflight a))).
  - cbn in Hr. by destruct l1.
Qed.

(** [deleteNote] compares with the [editingId] of the render it was invoked
    from.  Called directly (the view would not allow the second step), a
    session opened on the note after the call is not closed. *)
Example deleteNote_remembers_editingId :
  editingId ∘ st <$> run [Invoke (DeleteNote 1); Invoke (StartEdit note1);
                          Settle 0 (Fulfilled Deleted)] loaded
    = Some (Some 1)
  ∧ ui_run [Invoke (DeleteNote 1); Invoke (StartEdit note1)] loaded = None.
Proof. split; reflexivity. Qed.

(** X27: a failed Load, Create or Delete, in whatever state it settles: only
    [err] and the operation's busy flag are written. *)
Lemma rejected_settle_fields (a a' : App) (k : nat) (p : Pending) (e : Thrown) :
  inflight a !! k = Some p →
  awaiting p ≠ AwaitSave →
  settle k (Rejected e) a = Some a' →
  notes (st a') = notes (st a)
  ∧ newText (st a') = newText (st a)
  ∧ editingId (st a') = editingId (st a)
  ∧ editingText (st a') = editingText (st a)
  ∧ savingEdit (st a') = savingEdit (st a)
  ∧ (∀ m, e = ErrorObj m → err (st a') = m)
  ∧ match awaiting p with
    | AwaitLoad =>
        isLoading (st a') = false ∧ isAdding (st a') = isAdding (st a)
        ∧ deletingId (st a') = deletingId (st a)
    | AwaitAdd =>
        isLoading (st a') = isLoading (st a) ∧ isAdding (st a') = false
        ∧ deletingId (st a') = deletingId (st a)
    | _ =>
        isLoading (st a') = isLoading (st a)
        ∧ isAdding (st a') = isAdding (st a) ∧ deletingId (st a') = None
    end.
Proof.
  unfold settle. intros -> Hk Hs.
  destruct (awaiting p); cbn [resume] in Hs; try done;
    injection Hs as <-; cbn; repeat split; by intros m ->.
Qed.

(** ** The replies of the race come from a store with unique ids *)

Lemma store_create_ok (text now : jsstring) (db : Store) :
  store_ok db → store_ok (store_create text now db).1.
Proof.
  intros [Hn Hlt]. split; cbn.
  - apply NoDup_cons_2; [|exact Hn].
    intros (n & Hid & Hin)%list_elem_of_fmap_1.
    rewrite list.Forall_forall in Hlt. specialize (Hlt n Hin).
    cbn in Hlt, Hid. lia.
  - constructor; [cbn; lia|].
    eapply list.Forall_impl; [exact Hlt|]. cbn. intros; lia.
Qed.

(** The store of the race: empty when it answers the load of the mount,
    holding note 5 when it answers the refresh, after the create. *)
Lemma create_during_refresh_replies :
  store_ok empty_store
  ∧ store_list empty_store = []
  ∧ (store_create (lit "new") (lit "2024-01-05T10:00:00") empty_store).2 = note5
  ∧ store_list
      (store_create (lit "new") (lit "2024-01-05T10:00:00") empty_store).1
    = [note5]
  ∧ store_ok (store_create (lit "new") (lit "2024-01-05T10:00:00") empty_store).1.
Proof.
  assert (store_ok empty_store) as H.
  { split; cbn; [apply NoDup_nil_2 | constructor]. }
  split; [exact H|]. split; [done|]. split; [done|]. split; [done|].
  by apply store_create_ok.
Qed.

(** * Further properties of the component *)

(** ** The base path and the request adapter *)

Lemma replace_trailing_slashes_fixed (s : jsstring) :
  replace_trailing_slashes s = s ↔ list.last s ≠ Some slash.
Proof.
  split.
  - intros <-. rewrite replace_trailing_slashes_spec.
    apply without_trailing_slashes_last.
  - intros Hl. destruct (without_trailing_slashes_split s) as [k Hk].
    rewrite replace_trailing_slashes_spec.
    destruct k as [|k]; [by rewrite app_nil_r in Hk|].
    rewrite replicate_S_end, app_assoc in Hk.
    rewrite Hk, last_snoc in Hl. done.
Qed.

(** X1: with an override [w ++ "/.../"], [w] not ending in a slash, the base
    path is [w ++ "/api"]: exactly the trailing slashes are dropped. *)
Theorem API_BASE_override_shape (url : jsstring) :
  ∃ (w : jsstring) (k : nat),
    url = w ++ replicate k slash
    ∧ list.last w ≠ Some slash
    ∧ API_BASE (Some url) = w ++ lit "/api".
Proof.
  destruct (without_trailing_slashes_split url) as [k Hk].
  exists (without_trailing_slashes url), k.
  split; [exact Hk|]. split; [apply without_trailing_slashes_last|].
  unfold API_BASE. destruct url as [|c url]; [done|].
  cbn [truthy]. by rewrite replace_trailing_slashes_spec.
Qed.

(** X2: the inline-styled copy of the component builds the same base path as
    the other one exactly for the overrides that do not end in a slash. *)
Theorem API_BASE_inline_agrees_iff (url : jsstring) :
  API_BASE_inline (Some url) = API_BASE (Some url)
  ↔ list.last url ≠ Some slash.
Proof.
  unfold API_BASE_inline, API_BASE.
  destruct url as [|c url]; [done|]. cbn [truthy].
  rewrite <- replace_trailing_slashes_fixed. split.
  - intros H. by apply app_inv_tail in H.
  - by intros ->.
Qed.

Lemma or_else_nil_r (s : jsstring) : or_else s [] = s.
Proof. by destruct s. Qed.

(** X3: [api] rejects in three cases and no other: the fetch fails, the status
    is not 2xx, or the status is 2xx, the content type announces JSON and the
    body does not parse. *)
Theorem api_rejected_iff {T : Type} (f : Fetched T) :
  (∃ e, api f = Rejected e)
  ↔ match f with
    | NetworkError _ => True
    | Responded res =>
        res_ok res = false
        ∨ (includes (default [] (res_content_type res))
                    (lit "application/json") = true
           ∧ ∃ m, res_json res = inl m)
    end.
Proof.
  unfold api. destruct f as [m|res]; [split; eauto|].
  rewrite or_else_nil_r.
  destruct (res_ok res); cbn [negb].
  - destruct (includes _ _).
    + destruct (res_json res) as [m|v].
      * split; eauto.
      * split; [by intros [e ?]|]. by intros [?|[_ [m ?]]].
    + split; [by intros [e ?]|]. by intros [?|[? _]].
  - destruct (res_text res); split; eauto.
Qed.

(** X4: when the body of a non-2xx response can be read, the message of
    the failure is never empty, so the error banner, rendered when [err] is
    truthy, shows.  (When reading the body fails the message is the one of
    that failure, whatever it is.) *)
Theorem api_non_2xx_message_truthy {T : Type} (res : Response T)
    (text : jsstring) :
  res_ok res = false →
  res_text res = inr text →
  ∃ m, api (Responded res) = Rejected (ErrorObj m) ∧ truthy m = true.
Proof.
  intros Hok Htext. unfold api. rewrite Hok, Htext. cbn [negb].
  eexists. split; [reflexivity|]. unfold or_else.
  by destruct text.
Qed.

Lemma api_non_2xx_message_truthy_witness :
  res_ok bad_gateway = false
  ∧ res_text bad_gateway = inr []
  ∧ ∃ m, api (Responded bad_gateway) = Rejected (ErrorObj m) ∧ truthy m = true.
Proof.
  split; [reflexivity|]. split; [reflexivity|].
  apply (api_non_2xx_message_truthy bad_gateway []); reflexivity.
Defined.

Lemma api_rejects_with_Error_witness :
  api (Responded not_found) = Rejected (ErrorObj (lit "Not Found"))
  ∧ ∃ m, ErrorObj (lit "Not Found") = ErrorObj m.
Proof.
  split; [reflexivity|].
  apply (api_rejects_with_Error (Responded not_found)). reflexivity.
Defined.

(** X6: the synthesized message tells the status: two status codes give the
    same "Request failed (...)" text only if they are equal. *)
Theorem request_failed_inj (status1 status2 : Z) :
  request_failed status1 = request_failed status2 ↔ status1 = status2.
Proof.
  split; [|by intros ->].
  unfold request_failed. intros H.
  apply app_inv_head, app_inv_tail in H.
  apply (f_equal parse_number) in H.
  rewrite !parse_number_to_string in H. by injection H.
Qed.

(** ** Guards and the controls that mirror them *)

Section Blank.
Context {A : Type} (p : A → bool).

Lemma drop_while_nil_iff (l : list A) :
  drop_while p l = [] ↔ forallb p l = true.
Proof.
  split; [|apply drop_while_all].
  induction l as [|x l IH]; [done|]. simpl.
  destruct (p x); [exact IH | done].
Qed.

Lemma forallb_drop_while (l : list A) :
  forallb p (drop_while p l) = forallb p l.
Proof.
  induction l as [|x l IH]; [done|]. simpl.
  destruct (p x) eqn:E; [exact IH|]. simpl. by rewrite E.
Qed.
End Blank.

(** [trim] leaves nothing exactly of the strings made of white space. *)
Lemma trim_nil_iff (s : jsstring) :
  trim s = [] ↔ forallb is_space s = true.
Proof.
  unfold trim, trimEnd, trimStart.
  rewrite <- (forallb_drop_while is_space s).
  rewrite <- (forallb_reverse is_space (drop_while is_space s)).
  rewrite <- drop_while_nil_iff. split.
  - intros H. apply (f_equal reverse) in H.
    by rewrite reverse_involutive in H.
  - by intros ->.
Qed.

Lemma snoc_neq {A : Type} (l : list A) (x : A) : l ++ [x] ≠ l.
Proof.
  intros H. apply (f_equal length) in H.
  rewrite length_app in H. simpl in H. lia.
Qed.

(** X7: [addNote] returns without doing anything exactly when the input is
    white space only or a create is in flight. *)
Theorem addNote_refuses_iff (a : App) :
  invoke AddNote a = a
  ↔ forallb is_space (newText (st a)) = true ∨ isAdding (st a) = true.
Proof.
  rewrite <- trim_nil_iff. cbn [invoke]. unfold addNote.
  destruct (trim (newText (st a))) as [|c t] eqn:Et; cbn [truthy negb orb].
  { split; auto. }
  destruct (isAdding (st a)).
  { split; auto. }
  split; [|by intros [?|?]].
  intros H. apply (f_equal inflight) in H. cbn in H.
  by apply snoc_neq in H.
Qed.

(** X8: the Add button is enabled ([canAdd]) exactly when [addNote] would send
    its request, the POST of the trimmed input. *)
Theorem canAdd_iff_addNote_issues (a : App) :
  canAdd (st a) = true
  ↔ inflight (invoke AddNote a) = inflight a ++ [post_note (st a)].
Proof.
  cbn [invoke]. unfold canAdd, addNote.
  destruct (trim (newText (st a))) as [|c t] eqn:Et; cbn [truthy negb orb length].
  { split; [done|]. intros H. symmetry in H. by apply snoc_neq in H. }
  destruct (isAdding (st a)); cbn.
  { split; [done|]. intros H. symmetry in H. by apply snoc_neq in H. }
  split; [|done]. intros _. unfold post_note. by rewrite Et.
Qed.

(** X9: when a row shows the editor, its Save button is enabled exactly
    when [saveEdit] would send its request, the PUT of the trimmed draft to
    the session's note (the id a safe integer, so that the path is its
    decimal numeral). *)
Theorem save_enabled_iff_saveEdit_issues (a : App) (id : Z) :
  editingId (st a) = Some id →
  editor_shown (st a) = true →
  safe_integer id →
  (enabled (st a) SaveEdit = true
   ↔ inflight (invoke SaveEdit a)
       = inflight a ++ [put_note id (editingText (st a))]).
Proof.
  intros Hid Hshown _. cbn [invoke enabled]. rewrite Hshown. cbn [andb].
  unfold save_disabled, saveEdit. rewrite Hid.
  destruct (trim (editingText (st a))) as [|c t] eqn:Et;
    cbn [truthy negb orb length].
  { rewrite orb_true_r. split; [done|].
    intros H. symmetry in H. by apply snoc_neq in H. }
  destruct (savingEdit (st a)); cbn.
  { split; [done|]. intros H. symmetry in H. by apply snoc_neq in H. }
  split; [|done]. intros _. unfold put_note. by rewrite Et.
Qed.

Lemma save_enabled_iff_saveEdit_issues_witness :
  editingId (st editing_note1) = Some 1
  ∧ editor_shown (st editing_note1) = true
  ∧ safe_integer 1
  ∧ (enabled (st editing_note1) SaveEdit = true
     ↔ inflight (invoke SaveEdit editing_note1)
         = inflight editing_note1
             ++ [put_note 1 (editingText (st editing_note1))]).
Proof.
  assert (safe_integer 1) as H by (unfold safe_integer; lia).
  split; [reflexivity|]. split; [reflexivity|]. split; [exact H|].
  apply (save_enabled_iff_saveEdit_issues editing_note1 1);
    [reflexivity | reflexivity | exact H].
Defined.

(** ** What a fulfilled request does *)

Lemma loadNotes_fulfilled_run (a : App) (data : list Note.t) :
  run [Invoke LoadNotes;
       Settle (length (inflight a)) (Fulfilled (Notes data))] a
    = Some {| st := setIsLoading false
                      (setNotes data (setIsLoading true (setErr [] (st a))));
              inflight := inflight a |}.
Proof.
  cbn [run step invoke]. unfold loadNotes.
  by erewrite settle_issued by reflexivity.
Qed.

(** X10: a Load that succeeds replaces the notes by the reply as it is, whatever
    they were, clears [isLoading] and leaves no error; the same Load again
    changes nothing more. *)
Theorem loadNotes_fulfilled_replaces (a : App) (data : list Note.t) :
  let load :=
    [Invoke LoadNotes;
     Settle (length (inflight a)) (Fulfilled (Notes data))] in
  ∃ a', run load a = Some a'
    ∧ notes (st a') = data
    ∧ isLoading (st a') = false
    ∧ err (st a') = []
    ∧ inflight a' = inflight a
    ∧ run load a' = Some a'.
Proof.
  intros load. subst load.
  rewrite (loadNotes_fulfilled_run a data).
  eexists. split; [reflexivity|]. cbn [st inflight].
  repeat split.
  pose proof (loadNotes_fulfilled_run
    {| st := setIsLoading false
               (setNotes data (setIsLoading true (setErr [] (st a))));
       inflight := inflight a |} data) as H.
  cbn [inflight] in H. rewrite H. reflexivity.
Qed.

(** X11: a Create that succeeds puts the returned note in front of the notes
    there are when the reply arrives and empties the input, including what
    was typed while the request was in flight. *)
Theorem addNote_fulfilled_prepends (a : App) (created : Note.t)
    (typed : jsstring) :
  trim (newText (st a)) ≠ [] →
  isAdding (st a) = false →
  ∃ a', run [Invoke AddNote; Invoke (SetNewText typed);
             Settle (length (inflight a)) (Fulfilled (OneNote created))] a
          = Some a'
    ∧ notes (st a') = created :: notes (st a)
    ∧ newText (st a') = []
    ∧ isAdding (st a') = false
    ∧ err (st a') = []
    ∧ inflight a' = inflight a.
Proof.
  intros Ht Hb. cbn [run step invoke]. unfold addNote. rewrite Hb.
  destruct (truthy (trim (newText (st a)))) eqn:E;
    [|by apply truthy_nil in E].
  cbn [negb orb]. unfold with_state, issue, settle. cbn [inflight st].
  rewrite lookup_snoc, delete_snoc. cbn [awaiting resume].
  eexists. split; [reflexivity|]. repeat split.
Qed.

Lemma addNote_fulfilled_prepends_witness :
  trim (newText (st (invoke (SetNewText (lit " new ")) loaded))) ≠ []
  ∧ isAdding (st (invoke (SetNewText (lit " new ")) loaded)) = false
  ∧ ∃ a', run [Invoke AddNote; Invoke (SetNewText (lit "next"));
               Settle (length (inflight (invoke (SetNewText (lit " new ")) loaded)))
                      (Fulfilled (OneNote note5))]
              (invoke (SetNewText (lit " new ")) loaded) = Some a'
      ∧ notes (st a')
          = note5 :: notes (st (invoke (SetNewText (lit " new ")) loaded))
      ∧ newText (st a') = []
      ∧ isAdding (st a') = false
      ∧ err (st a') = []
      ∧ inflight a' = inflight (invoke (SetNewText (lit " new ")) loaded).
Proof.
  split; [discriminate|]. split; [reflexivity|].
  apply (addNote_fulfilled_prepends
           (invoke (SetNewText (lit " new ")) loaded) note5 (lit "next"));
    [discriminate | reflexivity].
Defined.

(** X12: a successful save whose note is not in the local collection (it was
    deleted or dropped by a Load in the meantime) changes no note. *)
Theorem saveEdit_fulfilled_unknown_id (a : App) (k : nat) (p : Pending)
    (updated : Note.t) :
  inflight a !! k = Some p →
  awaiting p = AwaitSave →
  Note.id updated ∉ ids (notes (st a)) →
  ∃ a', step (Settle k (Fulfilled (OneNote updated))) a = Some a'
    ∧ notes (st a') = notes (st a).
Proof.
  intros Hp Hk Hid. unfold step, settle. rewrite Hp, Hk. cbn [resume].
  eexists. split; [reflexivity|]. cbn [st]. unfold saveEdit_settled.
  destruct (cancelEdit_fields
    (setNotes ((λ n, if decide (Note.id n = Note.id updated) then updated else n)
                 <$> notes (st a)) (st a))) as (_ & _ & _ & -> & _).
  cbn [setNotes notes].
  rewrite <- (list_fmap_id (notes (st a))) at 2.
  apply list_fmap_ext. intros i n Hin.
  destruct (decide _) as [E|]; [|done].
  destruct Hid. rewrite <- E. unfold ids.
  apply list_elem_of_fmap_2. by eapply list_elem_of_lookup_2.
Qed.

Lemma saveEdit_fulfilled_unknown_id_witness :
  inflight saving_note1 !! 0%nat = Some put_note1
  ∧ awaiting put_note1 = AwaitSave
  ∧ (Note.id note9 ∉ ids (notes (st saving_note1)))
  ∧ ∃ a', step (Settle 0 (Fulfilled (OneNote note9))) saving_note1 = Some a'
      ∧ notes (st a') = notes (st saving_note1).
Proof.
  assert (Note.id note9 ∉ ids (notes (st saving_note1))) as H.
  { cbn. intros H. apply elem_of_cons in H as [H|H]; [discriminate|].
    apply list_elem_of_singleton in H. discriminate. }
  split; [reflexivity|]. split; [reflexivity|]. split; [exact H|].
  apply (saveEdit_fulfilled_unknown_id saving_note1 0 put_note1 note9);
    [reflexivity | reflexivity | exact H].
Defined.

(** X13: when a delete succeeds, the session is closed if the session open when
    [deleteNote] was called was on the deleted note, whatever session is
    open now; otherwise the session of now stays, also one on the deleted
    note. *)
Theorem deleteNote_session_decided_at_call (a : App) (k : nat) (p : Pending)
    (id : Z) (remembered : option Z) :
  inflight a !! k = Some p →
  awaiting p = AwaitDelete id remembered →
  ∃ a', step (Settle k (Fulfilled Deleted)) a = Some a'
    ∧ (remembered = Some id →
         editingId (st a') = None ∧ editingText (st a') = []
         ∧ savingEdit (st a') = false)
    ∧ (remembered ≠ Some id →
         editingId (st a') = editingId (st a)
         ∧ editingText (st a') = editingText (st a)
         ∧ savingEdit (st a') = savingEdit (st a)).
Proof.
  intros Hp Hk. unfold step, settle. rewrite Hp, Hk. cbn [resume].
  eexists. split; [reflexivity|]. cbn [st]. unfold deleteNote_settled.
  split; intros H.
  - by rewrite decide_True.
  - by rewrite decide_False.
Qed.

Lemma deleteNote_session_decided_at_call_witness :
  inflight (invoke (StartEdit note1) deleting_note1) !! 0%nat
    = Some delete_note1
  ∧ awaiting delete_note1 = AwaitDelete 1 None
  ∧ ∃ a', step (Settle 0 (Fulfilled Deleted))
               (invoke (StartEdit note1) deleting_note1) = Some a'
      ∧ (None = Some 1 →
           editingId (st a') = None ∧ editingText (st a') = []
           ∧ savingEdit (st a') = false)
      ∧ (None ≠ Some 1 →
           editingId (st a')
             = editingId (st (invoke (StartEdit note1) deleting_note1))
           ∧ editingText (st a')
               = editingText (st (invoke (StartEdit note1) deleting_note1))
           ∧ savingEdit (st a')
               = savingEdit (st (invoke (StartEdit note1) deleting_note1))).
Proof.
  split; [reflexivity|]. split; [reflexivity|].
  apply (deleteNote_session_decided_at_call
           (invoke (StartEdit note1) deleting_note1) 0 delete_note1 1 None);
    reflexivity.
Defined.

(** X14: a request that succeeds never writes [err]: the message of an earlier
    failure stays on screen when another request succeeds. *)
Theorem fulfilled_keeps_err (a a' : App) (k : nat) (r : Reply) :
  settle k (Fulfilled r) a = Some a' → err (st a') = err (st a).
Proof.
  unfold settle. destruct (inflight a !! k) as [p|]; [|done].
  destruct (awaiting p) as [| | |id e], r as [data|n|];
    cbn [resume]; try done; intros [= <-]; cbn [st]; try done.
  unfold deleteNote_settled. cbn. by destruct (decide _).
Qed.

Lemma fulfilled_keeps_err_witness :
  ∃ a a', ui_run [Invoke (SetNewText (lit "x")); Invoke AddNote;
                  Settle 1 (Rejected boom)] mounted = Some a
    ∧ settle 0 (Fulfilled (Notes [note2])) a = Some a'
    ∧ err (st a) = lit "Request failed (500)"
    ∧ err (st a') = err (st a).
Proof.
  eexists. eexists. split; [reflexivity|].
  split; [reflexivity|]. split; [reflexivity|].
  eapply (fulfilled_keeps_err _ _ 0 (Notes [note2])). reflexivity.
Defined.

(** ** Where notes come from *)

(** X15: the notes change only when a request is fulfilled: no call and no
    failure touches them. *)
Theorem notes_change_only_on_fulfilled (ev : Event) (a a' : App) :
  step ev a = Some a' →
  notes (st a') ≠ notes (st a) →
  ∃ k r, ev = Settle k (Fulfilled r).
Proof.
  intros Hstep Hn. destruct ev as [c|k [r|e]]; [| by eauto |]; destruct Hn.
  - cbn in Hstep. injection Hstep as <-. apply invoke_notes.
  - cbn [step] in Hstep. unfold settle in Hstep.
    destruct (inflight a !! k) as [p|]; [|done].
    destruct (awaiting p); cbn [resume] in Hstep; injection Hstep as <-; done.
Qed.

Lemma notes_change_only_on_fulfilled_witness :
  step (Settle 0 (Fulfilled Deleted)) deleting_note1
    = Some (with_state (setNotes [note2] (st loaded)) loaded)
  ∧ notes (st (with_state (setNotes [note2] (st loaded)) loaded))
      ≠ notes (st deleting_note1)
  ∧ ∃ k r, Settle 0 (Fulfilled Deleted) = Settle k (Fulfilled r).
Proof.
  split; [reflexivity|]. split; [discriminate|].
  apply (notes_change_only_on_fulfilled _ deleting_note1
           (with_state (setNotes [note2] (st loaded)) loaded));
    [reflexivity | discriminate].
Defined.

(** X16: every note in the local collection was there before the step or is part
    of the reply that the step delivers: the component makes up no note. *)
Theorem notes_come_from_replies (ev : Event) (a a' : App) (n : Note.t) :
  step ev a = Some a' →
  n ∈ notes (st a') →
  n ∈ notes (st a)
  ∨ (∃ k, ev = Settle k (Fulfilled (OneNote n)))
  ∨ (∃ k data, ev = Settle k (Fulfilled (Notes data)) ∧ n ∈ data).
Proof.
  intros Hstep Hn. destruct ev as [c|k o].
  { cbn in Hstep. injection Hstep as <-. left. by rewrite invoke_notes in Hn. }
  cbn [step] in Hstep. unfold settle in Hstep.
  destruct (inflight a !! k) as [p|]; [|done].
  destruct (awaiting p) as [| | |id e], o as [[data|m|]|err];
    cbn [resume] in Hstep; try done; injection Hstep as <-; cbn [st] in Hn;
    try (by left).
  - right. right. by exists k, data.
  - cbn in Hn. apply elem_of_cons in Hn as [->|Hn]; [|by left].
    right. left. by exists k.
  - unfold saveEdit_settled in Hn.
    destruct (cancelEdit_fields
      (setNotes ((λ x, if decide (Note.id x = Note.id m) then m else x)
                   <$> notes (st a)) (st a))) as (_ & _ & _ & E & _).
    rewrite E in Hn. cbn [setNotes notes] in Hn.
    apply list_elem_of_fmap_1 in Hn as (x & -> & Hx).
    destruct (decide _); [|by left].
    right. left. by exists k.
  - unfold deleteNote_settled in Hn. cbn [setDeletingId notes] in Hn.
    left. destruct (decide _); cbn in Hn;
      by apply list_elem_of_filter in Hn as [_ Hn].
Qed.

Lemma notes_come_from_replies_witness :
  step (Settle 0 (Fulfilled (OneNote note1_saved))) saving_note1
    = Some (with_state (setNotes [note1_saved; note2] (st loaded)) loaded)
  ∧ note1_saved
      ∈ notes (st (with_state (setNotes [note1_saved; note2] (st loaded)) loaded))
  ∧ (note1_saved ∈ notes (st saving_note1)
     ∨ (∃ k, Settle 0 (Fulfilled (OneNote note1_saved))
               = Settle k (Fulfilled (OneNote note1_saved)))
     ∨ (∃ k data,
          Settle 0 (Fulfilled (OneNote note1_saved))
            = Settle k (Fulfilled (Notes data))
          ∧ note1_saved ∈ data)).
Proof.
  split; [reflexivity|]. split; [apply list_elem_of_here|].
  apply (notes_come_from_replies _ saving_note1
           (with_state (setNotes [note1_saved; note2] (st loaded)) loaded));
    [reflexivity | apply list_elem_of_here].
Defined.

(** X17: an operation that sends a request clears the error first. *)
Theorem issuing_clears_err (c : Call) (a : App) :
  inflight (invoke c a) ≠ inflight a → err (st (invoke c a)) = [].
Proof.
  destruct c; cbn [invoke]; try done.
  - unfold addNote. by destruct (_ || _).
  - unfold saveEdit. destruct (editingId (st a)); [|done].
    by destruct (_ || _).
  - unfold deleteNote. by destruct (deletingId (st a)).
Qed.

Lemma issuing_clears_err_witness :
  inflight (invoke SaveEdit failed_save) ≠ inflight failed_save
  ∧ err (st failed_save) = lit "Request failed (500)"
  ∧ err (st (invoke SaveEdit failed_save)) = [].
Proof.
  split; [discriminate|]. split; [reflexivity|].
  apply (issuing_clears_err SaveEdit failed_save). discriminate.
Defined.

(** ** Requests in flight and busy flags *)

Lemma run_invariant (P : App → Prop) :
  (∀ ev a a', P a → step ev a = Some a' → P a') →
  ∀ evs a a', P a → run evs a = Some a' → P a'.
Proof.
  intros Hstep evs. induction evs as [|ev evs IH]; intros a a' Ha Hrun.
  - cbn in Hrun. by injection Hrun as <-.
  - cbn in Hrun. destruct (step ev a) as [a1|] eqn:E; [|done].
    eapply IH; [|exact Hrun]. by eapply Hstep.
Qed.

Lemma ui_run_invariant (P : App → Prop) :
  (∀ ev a a', P a → ui_step ev a = Some a' → P a') →
  ∀ evs a a', P a → ui_run evs a = Some a' → P a'.
Proof.
  intros Hstep evs. induction evs as [|ev evs IH]; intros a a' Ha Hrun.
  - cbn in Hrun. by injection Hrun as <-.
  - cbn in Hrun. destruct (ui_step ev a) as [a1|] eqn:E; [|done].
    eapply IH; [|exact Hrun]. by eapply Hstep.
Qed.

Lemma in_flight_issue (k k' : Continuation) (r : Request) (s : State) (a : App) :
  in_flight k (issue r k' s a)
    = (in_flight k a + if decide (k' = k) then 1 else 0)%nat.
Proof.
  unfold in_flight, issue. cbn [inflight].
  rewrite list.filter_app, length_app. f_equal.
  rewrite filter_cons. cbn [awaiting]. by destruct (decide _).
Qed.

Lemma in_flight_settled (k : Continuation) (i : nat) (p : Pending) (s : State)
    (a : App) :
  inflight a !! i = Some p →
  (in_flight k {| st := s; inflight := delete i (inflight a) |}
     + if decide (awaiting p = k) then 1 else 0)%nat
    = in_flight k a.
Proof.
  intros Hp. unfold in_flight. cbn [inflight].
  rewrite <- (take_drop_middle _ _ _ Hp) at 2.
  rewrite delete_take_drop, !list.filter_app, !length_app, filter_cons.
  destruct (decide _); cbn [length]; lia.
Qed.

Lemma in_flight_with_state (k : Continuation) (s : State) (a : App) :
  in_flight k (with_state s a) = in_flight k a.
Proof. done. Qed.

(** X18: however the operations are called and the requests settle, at most one
    create is in flight, and [isAdding] is true exactly while it is. *)
Theorem create_single_flight (a : App) :
  reachable a → in_flight AwaitAdd a = flag (isAdding (st a)).
Proof.
  intros [evs Hrun]. revert Hrun.
  apply (run_invariant (λ a, in_flight AwaitAdd a = flag (isAdding (st a))));
    [|done].
  clear. intros ev a a' Ha Hstep. destruct ev as [c|i o].
  - cbn in Hstep. injection Hstep as <-.
    destruct c; cbn [invoke]; try exact Ha.
    + unfold loadNotes. by rewrite in_flight_issue, decide_False, Nat.add_0_r.
    + unfold addNote. destruct (truthy _); cbn [negb orb]; [|exact Ha].
      destruct (isAdding (st a)) eqn:Hb; [cbn; by rewrite Hb|].
      rewrite in_flight_issue, decide_True by done. rewrite Ha. done.
    + unfold saveEdit. destruct (editingId (st a)); [|exact Ha].
      destruct (_ || _); [exact Ha|].
      by rewrite in_flight_issue, decide_False, Nat.add_0_r.
    + unfold deleteNote. destruct (deletingId (st a)); [exact Ha|].
      by rewrite in_flight_issue, decide_False, Nat.add_0_r.
  - cbn [step] in Hstep. unfold settle in Hstep.
    destruct (inflight a !! i) as [p|] eqn:Hp; [|done].
    destruct (resume (awaiting p) o (st a)) as [s|] eqn:Hr; [|done].
    injection Hstep as <-.
    pose proof (in_flight_settled AwaitAdd i p s a Hp) as Hc.
    rewrite Ha in Hc. cbn [st].
    destruct (awaiting p) as [| | |id e], o as [[data|n|]|err];
      cbn [resume] in Hr; try done; injection Hr as <-;
      rewrite ?decide_False in Hc by done;
      rewrite ?decide_True in Hc by done;
      cbn; try (unfold deleteNote_settled; cbn);
      try (destruct (decide (e = Some id)); cbn);
      destruct (isAdding (st a)); cbn in Hc |- *; lia.
Qed.

Lemma create_single_flight_witness :
  reachable (invoke AddNote (invoke (SetNewText (lit "new")) mounted))
  ∧ in_flight AwaitAdd (invoke AddNote (invoke (SetNewText (lit "new")) mounted))
      = flag (isAdding (st (invoke AddNote
                              (invoke (SetNewText (lit "new")) mounted)))).
Proof.
  assert (reachable (invoke AddNote (invoke (SetNewText (lit "new")) mounted)))
    as H.
  { exists [Invoke LoadNotes; Invoke (SetNewText (lit "new")); Invoke AddNote].
    reflexivity. }
  split; [exact H|].
  exact (create_single_flight _ H).
Defined.

Lemma pending_delete_issue (r : Request) (k : Continuation) (s : State)
    (a : App) :
  omap pending_delete (inflight (issue r k s a))
    = omap pending_delete (inflight a)
      ++ match k with
         | AwaitDelete id e => [(id, e)]
         | _ => []
         end.
Proof.
  unfold issue. cbn [inflight]. rewrite omap_app. f_equal.
  cbn. unfold pending_delete. cbn [awaiting]. by destruct k.
Qed.

Lemma delete_single_flight_step (ev : Event) (a a' : App) :
  delete_single_flight a → step ev a = Some a' → delete_single_flight a'.
Proof.
  unfold delete_single_flight. intros Ha Hstep. destruct ev as [c|i o].
  - cbn in Hstep. injection Hstep as <-.
    destruct c; cbn [invoke]; try exact Ha.
    + unfold loadNotes. by rewrite pending_delete_issue, app_nil_r.
    + unfold addNote. destruct (_ || _); [exact Ha|].
      by rewrite pending_delete_issue, app_nil_r.
    + unfold saveEdit. destruct (editingId (st a)); [|exact Ha].
      destruct (_ || _); [exact Ha|].
      by rewrite pending_delete_issue, app_nil_r.
    + unfold deleteNote. destruct (deletingId (st a)) eqn:Hd;
        [by rewrite Hd|].
      rewrite pending_delete_issue.
      destruct (omap pending_delete (inflight a)) as [|[id' e] [|? ?]];
        [done|done|done].
  - cbn [step] in Hstep. unfold settle in Hstep.
    destruct (inflight a !! i) as [p|] eqn:Hp; [|done].
    destruct (resume (awaiting p) o (st a)) as [s|] eqn:Hr; [|done].
    injection Hstep as <-. cbn [inflight st].
    rewrite delete_take_drop, omap_app.
    rewrite <- (take_drop_middle _ _ _ Hp), omap_app in Ha.
    cbn [omap list_omap] in Ha. unfold pending_delete at 2 in Ha.
    destruct (awaiting p) as [| | |id e] eqn:Hk.
    1-3: assert (deletingId s = deletingId (st a)) as -> by
      (destruct o as [[data|n|]|err]; cbn [resume] in Hr; try done;
       by injection Hr as <-); exact Ha.
    destruct (omap pending_delete (take i (inflight a))) as [|[id1 e1] l1].
    + cbn in Ha.
      destruct (omap pending_delete (drop (S i) (inflight a)))
        as [|? ?]; [|done].
      cbn. destruct o as [[data|n|]|err]; cbn [resume] in Hr; try done;
        by injection Hr as <-.
    + cbn in Ha. by destruct l1.
Qed.

(** X19: however the operations are called and the requests settle, at most one
    delete is in flight, and [deletingId] is the id it deletes, or null when
    there is none. *)
Theorem delete_single_flight_reachable (a : App) :
  reachable a → delete_single_flight a.
Proof.
  intros [evs Hrun]. revert Hrun.
  apply (run_invariant delete_single_flight); [|done].
  intros ev a1 a2. apply delete_single_flight_step.
Qed.

Lemma delete_single_flight_reachable_witness :
  reachable deleting_note1 ∧ delete_single_flight deleting_note1.
Proof.
  assert (reachable deleting_note1) as H.
  { exists [Invoke LoadNotes; Settle 0 (Fulfilled (Notes [note1; note2]));
            Invoke (DeleteNote 1)]. reflexivity. }
  split; [exact H|]. exact (delete_single_flight_reachable _ H).
Defined.

(** X20: driven through the view, at most one Load is in flight, and [isLoading]
    is true exactly while it is (the Refresh button is disabled meanwhile;
    [loadNotes] itself has no guard). *)
Theorem load_single_flight_by_view (a : App) :
  ui_reachable a → in_flight AwaitLoad a = flag (isLoading (st a)).
Proof.
  intros [evs Hrun]. revert Hrun.
  apply (ui_run_invariant
           (λ a, in_flight AwaitLoad a = flag (isLoading (st a)))); [|done].
  clear. intros ev a a' Ha Hstep. destruct ev as [c|i o].
  - cbn in Hstep. destruct (enabled (st a) c) eqn:Hen; [|done].
    injection Hstep as <-.
    destruct c; cbn [invoke]; try exact Ha.
    + cbn in Hen. apply negb_true_iff in Hen. rewrite Hen in Ha.
      unfold loadNotes. rewrite in_flight_issue, decide_True by done.
      by rewrite Ha.
    + unfold addNote. destruct (_ || _); [exact Ha|].
      by rewrite in_flight_issue, decide_False, Nat.add_0_r.
    + unfold saveEdit. destruct (editingId (st a)); [|exact Ha].
      destruct (_ || _); [exact Ha|].
      by rewrite in_flight_issue, decide_False, Nat.add_0_r.
    + unfold deleteNote. destruct (deletingId (st a)); [exact Ha|].
      by rewrite in_flight_issue, decide_False, Nat.add_0_r.
  - cbn [ui_step] in Hstep. unfold settle in Hstep.
    destruct (inflight a !! i) as [p|] eqn:Hp; [|done].
    destruct (resume (awaiting p) o (st a)) as [s|] eqn:Hr; [|done].
    injection Hstep as <-.
    pose proof (in_flight_settled AwaitLoad i p s a Hp) as Hc.
    rewrite Ha in Hc. cbn [st].
    destruct (awaiting p) as [| | |id e], o as [[data|n|]|err];
      cbn [resume] in Hr; try done; injection Hr as <-;
      rewrite ?decide_False in Hc by done;
      rewrite ?decide_True in Hc by done;
      cbn; try (unfold deleteNote_settled; cbn);
      try (destruct (decide (e = Some id)); cbn);
      destruct (isLoading (st a)); cbn in Hc |- *; lia.
Qed.

Lemma load_single_flight_by_view_witness :
  ui_reachable mounted
  ∧ in_flight AwaitLoad mounted = flag (isLoading (st mounted)).
Proof.
  assert (ui_reachable mounted) as H by (by exists []).
  split; [exact H|]. exact (load_single_flight_by_view _ H).
Defined.

(** ** Edit sessions *)

(** X22: saves are not single-flight: Cancel clears [savingEdit] while a save is
    still in flight, so after Cancel and Edit on a note with a non-blank
    text, Save sends one more request, whatever is in flight already. *)
Theorem save_after_cancel_sends_again (a : App) (note : Note.t) :
  editor_shown (st a) = true →
  note ∈ notes (st a) →
  deletingId (st a) ≠ Some (Note.id note) →
  trim (Note.text note) ≠ [] →
  in_flight AwaitSave
    (click SaveEdit (click (StartEdit note) (click CancelEdit a)))
    = S (in_flight AwaitSave a).
Proof.
  intros Hshown Hin Hdel Htext.
  assert (isLoading (st a) = false) as Hload.
  { unfold editor_shown in Hshown.
    apply andb_true_iff in Hshown as [H _]. by apply negb_true_iff in H. }
  unfold click at 3. cbn [enabled]. rewrite Hshown. cbn [invoke].
  unfold click at 2.
  assert (enabled (st (with_state (cancelEdit (st a)) a)) (StartEdit note)
          = true) as ->.
  { cbn. unfold row_shown, isDeleting. cbn. rewrite Hload.
    rewrite bool_decide_eq_true_2 by done.
    by rewrite bool_decide_eq_false_2. }
  cbn [invoke]. unfold click.
  assert (enabled
            (st (with_state
                   (startEdit note (st (with_state (cancelEdit (st a)) a)))
                   (with_state (cancelEdit (st a)) a))) SaveEdit = true) as ->.
  { cbn [enabled]. apply andb_true_iff. split.
    - unfold editor_shown. cbn. rewrite Hload. cbn [negb andb].
      apply existsb_exists. exists note. split; [by apply list_elem_of_In|].
      unfold isEditing. cbn. by rewrite bool_decide_eq_true_2.
    - unfold save_disabled. cbn -[trim].
      destruct (trim (Note.text note)); [by destruct Htext | done]. }
  cbn [invoke]. unfold saveEdit.
  set (a2 := with_state _ (with_state (cancelEdit (st a)) a)).
  change (editingId (st a2)) with (Some (Note.id note)).
  change (editingText (st a2)) with (Note.text note).
  change (savingEdit (st a2)) with false.
  destruct (truthy (trim (Note.text note))) eqn:E;
    [|by apply truthy_nil in E].
  cbn [negb orb]. rewrite in_flight_issue, decide_True by done.
  subst a2. rewrite !in_flight_with_state. lia.
Qed.

Lemma save_after_cancel_sends_again_witness :
  editor_shown (st saving_note1) = true
  ∧ note2 ∈ notes (st saving_note1)
  ∧ deletingId (st saving_note1) ≠ Some (Note.id note2)
  ∧ trim (Note.text note2) ≠ []
  ∧ in_flight AwaitSave
      (click SaveEdit (click (StartEdit note2) (click CancelEdit saving_note1)))
      = S (in_flight AwaitSave saving_note1).
Proof.
  assert (note2 ∈ notes (st saving_note1)) as H.
  { apply list_elem_of_further, list_elem_of_here. }
  split; [reflexivity|]. split; [exact H|].
  split; [discriminate|]. split; [discriminate|].
  apply (save_after_cancel_sends_again saving_note1 note2);
    [reflexivity | exact H | discriminate | discriminate].
Defined.

(** X23: when the note of the open session is not in the list (a refresh came
    back without it), no row shows the editor and every Edit button is
    disabled: the view offers no way to change, save or cancel the session,
    nor to open another. *)
Theorem session_without_row_is_stuck (s : State) (id : Z) :
  editingId s = Some id →
  id ∉ ids (notes s) →
  (∀ n, enabled s (StartEdit n) = false)
  ∧ enabled s CancelEdit = false
  ∧ enabled s SaveEdit = false
  ∧ ∀ v, enabled s (SetEditingText v) = false.
Proof.
  intros Hid Hin.
  assert (editor_shown s = false) as He.
  { unfold editor_shown. apply andb_false_iff. right.
    apply not_true_is_false. intros H.
    apply existsb_exists in H as (n & Hn & Hed).
    unfold isEditing in Hed. apply bool_decide_eq_true_1 in Hed.
    rewrite Hid in Hed. injection Hed as ->. apply Hin.
    unfold ids. apply list_elem_of_fmap_2. by apply list_elem_of_In. }
  cbn [enabled]. rewrite He. repeat split; try done.
  intros n. unfold edit_disabled.
  rewrite bool_decide_eq_true_2 by congruence. apply andb_false_r.
Qed.

Lemma session_without_row_reached :
  ui_run refresh_drops_note1 mounted = Some session_without_row.
Proof. reflexivity. Qed.

Lemma session_without_row_is_stuck_witness :
  editingId (st session_without_row) = Some 1
  ∧ (1 ∉ ids (notes (st session_without_row)))
  ∧ (∀ n, enabled (st session_without_row) (StartEdit n) = false)
  ∧ enabled (st session_without_row) CancelEdit = false
  ∧ enabled (st session_without_row) SaveEdit = false
  ∧ ∀ v, enabled (st session_without_row) (SetEditingText v) = false.
Proof.
  assert (1 ∉ ids (notes (st session_without_row))) as H.
  { cbn. intros H. apply list_elem_of_singleton in H. discriminate. }
  split; [reflexivity|]. split; [exact H|].
  apply (session_without_row_is_stuck (st session_without_row) 1);
    [reflexivity | exact H].
Defined.

Lemma idle_session_clean_step (ev : Event) (a a' : App) :
  idle_session_clean (st a) → ui_step ev a = Some a' →
  idle_session_clean (st a').
Proof.
  unfold idle_session_clean. intros Ha Hstep. destruct ev as [c|i o].
  - cbn in Hstep. destruct (enabled (st a) c) eqn:Hen; [|done].
    injection Hstep as <-.
    destruct c; cbn [invoke]; try exact Ha; try done.
    + unfold addNote. by destruct (_ || _).
    + cbn. intros Hid. cbn [enabled] in Hen. unfold editor_shown in Hen.
      apply andb_true_iff in Hen as [_ Hen].
      apply existsb_exists in Hen as (n & _ & Hn).
      unfold isEditing in Hn. apply bool_decide_eq_true_1 in Hn. congruence.
    + unfold saveEdit. destruct (editingId (st a)) eqn:E;
        [|by rewrite E].
      destruct (_ || _); [by rewrite E|]. cbn. congruence.
    + unfold deleteNote. by destruct (deletingId (st a)).
  - cbn [ui_step] in Hstep. unfold settle in Hstep.
    destruct (inflight a !! i) as [p|]; [|done].
    destruct (awaiting p) as [| | |id e], o as [[data|n|]|err];
      cbn [resume] in Hstep; try done; injection Hstep as <-; cbn [st];
      try exact Ha; try done.
    + cbn. intros Hid. by destruct (Ha Hid) as [-> _].
    + unfold deleteNote_settled. cbn [setDeletingId editingId editingText
        savingEdit]. destruct (decide _); [done|exact Ha].
Qed.

(** X24: driven through the view, whenever no session is open the draft is empty
    and [savingEdit] is false. *)
Theorem idle_session_clean_by_view (a : App) :
  ui_reachable a → idle_session_clean (st a).
Proof.
  intros [evs Hrun]. revert Hrun.
  apply (ui_run_invariant (λ a, idle_session_clean (st a))); [|done].
  intros ev a1 a2. apply idle_session_clean_step.
Qed.

Lemma idle_session_clean_by_view_witness :
  ui_reachable loaded ∧ idle_session_clean (st loaded).
Proof.
  assert (ui_reachable loaded) as H.
  { exists [Settle 0 (Fulfilled (Notes [note1; note2]))]. reflexivity. }
  split; [exact H|]. exact (idle_session_clean_by_view _ H).
Defined.

Lemma deleting_note1_by_view : ui_reachable deleting_note1.
Proof.
  exists [Settle 0 (Fulfilled (Notes [note1; note2])); Invoke (DeleteNote 1)].
  reflexivity.
Defined.

Lemma ui_delete_in_flight_witness :
  ui_reachable deleting_note1
  ∧ inflight deleting_note1 !! 0%nat = Some delete_note1
  ∧ awaiting delete_note1 = AwaitDelete 1 None
  ∧ deletingId (st deleting_note1) = Some 1
  ∧ editingId (st deleting_note1) ≠ Some 1
  ∧ None ≠ Some 1.
Proof.
  split; [exact deleting_note1_by_view|].
  split; [reflexivity|]. split; [reflexivity|].
  apply (ui_delete_in_flight deleting_note1 0 delete_note1 1 None);
    [exact deleting_note1_by_view | reflexivity | reflexivity].
Defined.

(** ** Deletes *)

(** X25: a delete that succeeds for an id no local note has leaves the notes as
    they are. *)
Theorem deleteNote_fulfilled_absent_id (a : App) (k : nat) (p : Pending)
    (id : Z) (remembered : option Z) :
  inflight a !! k = Some p →
  awaiting p = AwaitDelete id remembered →
  id ∉ ids (notes (st a)) →
  ∃ a', step (Settle k (Fulfilled Deleted)) a = Some a'
    ∧ notes (st a') = notes (st a).
Proof.
  intros Hp Hk Hid. unfold step, settle. rewrite Hp, Hk. cbn [resume].
  eexists. split; [reflexivity|]. cbn [st]. unfold deleteNote_settled.
  cbn [setDeletingId notes].
  assert (∀ s, notes (if decide (remembered = Some id) then cancelEdit s else s)
               = notes s) as -> by (intros s; by destruct (decide _)).
  cbn [setNotes notes]. revert Hid. unfold ids.
  induction (notes (st a)) as [|n l IH]; [done|]. intros Hid.
  rewrite fmap_cons in Hid. apply not_elem_of_cons in Hid as [Hn Hl].
  rewrite filter_cons_True by congruence. by rewrite IH.
Qed.

Lemma deleteNote_fulfilled_absent_id_witness :
  inflight (invoke LoadNotes deleting_note1) !! 0%nat = Some delete_note1
  ∧ awaiting delete_note1 = AwaitDelete 1 None
  ∧ ∃ a1, settle 1 (Fulfilled (Notes [note2])) (invoke LoadNotes deleting_note1)
            = Some a1
      ∧ (1 ∉ ids (notes (st a1)))
      ∧ ∃ a', step (Settle 0 (Fulfilled Deleted)) a1 = Some a'
          ∧ notes (st a') = notes (st a1).
Proof.
  split; [reflexivity|]. split; [reflexivity|].
  eexists. split; [reflexivity|].
  assert (1 ∉ ids [note2]) as H.
  { cbn. intros H. apply list_elem_of_singleton in H. discriminate. }
  split; [exact H|].
  eapply (deleteNote_fulfilled_absent_id _ 0 delete_note1 1 None);
    [reflexivity | reflexivity | exact H].
Defined.

(** X26: while a delete is in flight the Delete button of every other listed
    note stays enabled, but [deleteNote] ignores the click: nothing is sent
    and nothing changes. *)
Theorem delete_of_other_note_ignored (a : App) (n : Note.t) (d : Z) :
  isLoading (st a) = false →
  n ∈ notes (st a) →
  deletingId (st a) = Some d →
  d ≠ Note.id n →
  editingId (st a) ≠ Some (Note.id n) →
  enabled (st a) (DeleteNote (Note.id n)) = true
  ∧ click (DeleteNote (Note.id n)) a = a.
Proof.
  intros Hl Hn Hd Hne He.
  assert (enabled (st a) (DeleteNote (Note.id n)) = true) as Hen.
  { cbn [enabled]. rewrite Hl. cbn [negb andb].
    apply existsb_exists. exists n. split; [by apply list_elem_of_In|].
    rewrite bool_decide_eq_true_2 by done. cbn [andb].
    unfold delete_disabled, isDeleting. rewrite Hd.
    rewrite !bool_decide_eq_false_2 by congruence. done. }
  split; [exact Hen|]. unfold click. rewrite Hen.
  cbn [invoke]. unfold deleteNote. by rewrite Hd.
Qed.

Lemma delete_of_other_note_ignored_witness :
  isLoading (st deleting_note1) = false
  ∧ note2 ∈ notes (st deleting_note1)
  ∧ deletingId (st deleting_note1) = Some 1
  ∧ 1 ≠ Note.id note2
  ∧ editingId (st deleting_note1) ≠ Some (Note.id note2)
  ∧ enabled (st deleting_note1) (DeleteNote (Note.id note2)) = true
  ∧ click (DeleteNote (Note.id note2)) deleting_note1 = deleting_note1.
Proof.
  assert (note2 ∈ notes (st deleting_note1)) as H.
  { apply list_elem_of_further, list_elem_of_here. }
  split; [reflexivity|]. split; [exact H|]. split; [reflexivity|].
  split; [discriminate|]. split; [discriminate|].
  apply (delete_of_other_note_ignored deleting_note1 note2 1);
    [reflexivity | exact H | reflexivity | discriminate | discriminate].
Defined.

Lemma rejected_settle_fields_witness :
  inflight (invoke (SetNewText (lit "typed")) deleting_note1) !! 0%nat
    = Some delete_note1
  ∧ awaiting delete_note1 ≠ AwaitSave
  ∧ ∃ a', settle 0 (Rejected boom)
                 (invoke (SetNewText (lit "typed")) deleting_note1) = Some a'
      ∧ notes (st a') = [note1; note2]
      ∧ newText (st a') = lit "typed"
      ∧ err (st a') = lit "Request failed (500)"
      ∧ deletingId (st a') = None.
Proof.
  split; [reflexivity|]. split; [discriminate|].
  eexists. split; [reflexivity|].
  destruct (rejected_settle_fields
              (invoke (SetNewText (lit "typed")) deleting_note1) _ 0
              delete_note1 boom eq_refl ltac:(discriminate) eq_refl)
    as (Hn & Ht & _ & _ & _ & He & _ & _ & Hd).
  split; [exact Hn|]. split; [exact Ht|].
  split; [exact (He _ eq_refl) | exact Hd].
Defined.
